(** * Fireproof: the document store and its secondary indexes

    A shallow embedding of [fireproof.js] (the document store over the
    Merkle-clock engine) and of [db-index.js] (the map-function indexes
    over prolly trees), with the properties their specification states. *)

From Stdlib Require Import ZArith QArith String List Bool Lia.
From stdpp Require Import base option gmap strings pretty list.
Import ListNotations.

Set Warnings "-register-all".

Local Open Scope Z_scope.
Local Open Scope string_scope.
Local Open Scope list_scope.

(** ** JavaScript values *)

Module Js.

(** A JavaScript number.  A finite double is a rational, and [===], [>]
    on finite doubles agree with the order of the rationals. *)
Inductive JsNum : Type :=
| NaN
| PosInfinity
| NegInfinity
| Fin (q : Q).

Inductive JsVal : Type :=
| VUndefined
| VNull
| VBool (b : bool)
| VNum (n : JsNum)
| VStr (s : string)
| VArr (elems : list JsVal)
| VObj (props : list (string * JsVal)).

(** A thrown exception: the constructor's name and the message. *)
Record JsError : Type := mkError { err_name : string; err_message : string }.

Definition Error (msg : string) : JsError := mkError "Error" msg.
Definition TypeError (msg : string) : JsError := mkError "TypeError" msg.

(** The outcome of a call: a returned value or a thrown exception. *)
Inductive Result (A : Type) : Type :=
| Ok (a : A)
| Throw (e : JsError).
Arguments Ok {A} a.
Arguments Throw {A} e.

Definition bind {A B : Type} (r : Result A) (k : A -> Result B) : Result B :=
  match r with
  | Ok a => k a
  | Throw e => Throw e
  end.

(** [Number.isNaN(v)]: no coercion, only the number NaN. *)
Definition Number_isNaN (v : JsVal) : bool :=
  match v with VNum NaN => true | _ => false end.

(** [v === Infinity]. *)
Definition is_Infinity (v : JsVal) : bool :=
  match v with VNum PosInfinity => true | _ => false end.

(** [typeof v === 'undefined']. *)
Definition typeof_undefined (v : JsVal) : bool :=
  match v with VUndefined => true | _ => false end.

Definition num_is_zero (n : JsNum) : bool :=
  match n with Fin q => Qeq_bool q 0 | _ => false end.

(** ToBoolean: what [if (v)], [!v] and [v || w] test. *)
Definition truthy (v : JsVal) : bool :=
  match v with
  | VUndefined | VNull => false
  | VBool b => b
  | VNum NaN => false
  | VNum n => negb (num_is_zero n)
  | VStr s => negb (String.eqb s EmptyString)
  | VArr _ | VObj _ => true
  end.

(** The items the iterator of a string gives: its characters. *)
Definition string_items (s : string) : list JsVal :=
  map (fun c => VStr (String c EmptyString)) (list_ascii_of_string s).

(** [obj[k] = v] on an object's own properties. *)
Fixpoint set_prop (k : string) (v : JsVal) (props : list (string * JsVal))
    : list (string * JsVal) :=
  match props with
  | [] => [(k, v)]
  | (k', v') :: ps =>
      if String.eqb k k' then (k, v) :: ps else (k', v') :: set_prop k v ps
  end.

(** [{ ...v }]: the own enumerable properties of [v], the items of an
    array or the characters of a string under their indexes. *)
Definition indexed (items : list JsVal) : list (string * JsVal) :=
  imap (fun i x => (pretty i, x)) items.

Definition own_props (v : JsVal) : list (string * JsVal) :=
  match v with
  | VObj props => props
  | VArr l => indexed l
  | VStr s => indexed (string_items s)
  | _ => []
  end.

(** [v[i]] for an index [i]; reading a property of [null] or [undefined]
    throws. *)
Definition js_index (v : JsVal) (i : nat) : Result JsVal :=
  match v with
  | VArr l => Ok (nth i l VUndefined)
  | VStr s => Ok (nth i (string_items s) VUndefined)
  | VObj props =>
      Ok match find (fun p => String.eqb (fst p) (pretty i)) props with
         | Some p => snd p
         | None => VUndefined
         end
  | VUndefined => Throw (TypeError "Cannot read properties of undefined")
  | VNull => Throw (TypeError "Cannot read properties of null")
  | _ => Ok VUndefined
  end.

(** [l.map(f)] for an [f] that may throw: the first exception ends it. *)
Fixpoint mapM {A B : Type} (f : A -> Result B) (l : list A) : Result (list B) :=
  match l with
  | [] => Ok []
  | x :: l' => bind (f x) (fun y => bind (mapM f l') (fun ys => Ok (y :: ys)))
  end.

(** [l.slice(0, limit)]: [None] is [undefined]; a negative limit counts
    from the end. *)
Definition slice0 {A : Type} (l : list A) (limit : option Z) : list A :=
  match limit with
  | None => l
  | Some n =>
      if (0 <=? n)%Z then firstn (Z.to_nat n) l
      else firstn (length l - Z.to_nat (- n)) l
  end.

(** A [Map] with string keys, in insertion order: [set] replaces the
    value of a key in place and appends a new key. *)
Fixpoint map_set {V : Type} (k : string) (v : V) (m : list (string * V))
    : list (string * V) :=
  match m with
  | [] => [(k, v)]
  | (k', v') :: m' =>
      if String.eqb k k' then (k, v) :: m' else (k', v') :: map_set k v m'
  end.

Fixpoint map_get {V : Type} (k : string) (m : list (string * V)) : option V :=
  match m with
  | [] => None
  | (k', v') :: m' => if String.eqb k k' then Some v' else map_get k m'
  end.

Definition map_delete {V : Type} (k : string) (m : list (string * V)) : list (string * V) :=
  List.filter (fun p => negb (String.eqb k (fst p))) m.

Definition map_values {V : Type} (m : list (string * V)) : list V := map snd m.

Definition newline : string := String (Ascii.ascii_of_nat 10) EmptyString.

End Js.
Export Js.

(** ** Composite-key comparison ([db-index.js], lines 17-31) *)

Module Compare.

(** [simpleCompare] of the package prolly-trees/utils: the order of the
    tree's keys, an integer of sign -1, 0 or 1. *)
Class ProllyUtils : Type := { simpleCompare : JsVal -> JsVal -> Z }.

Section WithSimpleCompare.

Context `{!ProllyUtils}.

Definition refCompare (aRef bRef : JsVal) : Result Z :=
  if Number_isNaN aRef then Ok (-1)
  else if Number_isNaN bRef then Throw (Error "ref may not be Infinity or NaN")
  else if is_Infinity aRef then Ok 1
  else Ok (simpleCompare aRef bRef).

(** [const [x, y] = v]: the first two items the iterator of [v] gives,
    [undefined] where it has none; a value that is not iterable throws. *)
Definition destructure2 (v : JsVal) : Result (JsVal * JsVal) :=
  match v with
  | VArr l => Ok (nth 0 l VUndefined, nth 1 l VUndefined)
  | VStr s => Ok (nth 0 (string_items s) VUndefined, nth 1 (string_items s) VUndefined)
  | _ => Throw (TypeError "value is not iterable")
  end.

Definition compare (a b : JsVal) : Result Z :=
  bind (destructure2 a) (fun '(aKey, aRef) =>
  bind (destructure2 b) (fun '(bKey, bRef) =>
  let comp := simpleCompare aKey bKey in
  if negb (Z.eqb comp 0) then Ok comp
  else refCompare aRef bRef)).

End WithSimpleCompare.

End Compare.

(** ** The Merkle-clock engine ([prolly.js]) as the store consumes it *)

Module Prolly.

Definition CID : Type := nat.

(** A clock: the content identifiers of the log's frontier ([CID[]]). *)
Definition Clock : Type := list CID.

Inductive EventType : Type := TPut | TDel.

(** The event the store hands to [put]: [{ key, value }]. *)
Record PutEvent : Type := mkPutEvent { pe_key : string; pe_value : JsVal }.

(** An event of the log as [eventsSince] returns it: [{ key, type, value }]. *)
Record EventData : Type :=
  mkEventData { ev_key : string; ev_type : EventType; ev_value : JsVal }.

(** The most recent event of a key. *)
Fixpoint latest (log : list EventData) (k : string) : option EventData :=
  match log with
  | [] => None
  | e :: log' =>
      match latest log' k with
      | Some e' => Some e'
      | None => if String.eqb (ev_key e) k then Some e else None
      end
  end.

(** An entry of [getAll]: [{ key, value }]. *)
Record Entry : Type := mkEntry { en_key : string; en_value : JsVal }.

(** What [put] returns when the commit succeeds: [{ head }]. *)
Record PutResult : Type := mkPutResult { head : Clock }.

(** The engine of [prolly.js], which is not among the source files, taken
    as a parameter with the signatures the specification lists:
    [put(blocks, clock, event)] gives the result or [null], [get] the value
    or [null], [getAll] the entries and [eventsSince] the events between
    two clocks.  [put] runs inside [doTransaction], so it is given here with
    the blocks the transaction leaves. *)
Class Engine : Type := {
  Blockstore : Type;
  put : Blockstore -> Clock -> PutEvent -> Blockstore * option PutResult;
  get : Blockstore -> Clock -> string -> JsVal;
  getAll : Blockstore -> Clock -> list Entry;
  eventsSince : Blockstore -> Clock -> Clock -> list EventData
}.

End Prolly.

(** ** The document store ([fireproof.js]) *)

Module Fireproof.

Import Prolly.

(** [config.validateChange(doc, oldDoc, authCtx)]: [Some e] when the hook
    throws [e]. *)
Record Config : Type :=
  mkConfig { validateChange : option (JsVal -> JsVal -> JsVal -> option JsError) }.

(** A registered listener, by identity. *)
Definition Listener : Type := nat.

(** An item of the clock handed to [setClock]: a CID or a link object
    [{ '/': cid }]. *)
Inductive ClockItem : Type :=
| Link (c : CID)
| Plain (c : CID).

(** What a listener is called with: the committed events, or
    [{ reset: true, clock }]. *)
Inductive Changes : Type :=
| Committed (events : list PutEvent)
| Reset (clock : list ClockItem).

(** What one call [await listener(changes)] does, as the store sees it:
    the listeners it takes out of the set while it runs, by the functions
    [registerListener] returned, and the exception it throws, if any.  A
    listener that registers listeners, commits to the store or moves its
    clock while it is called is not covered. *)
Record Reaction : Type := mkReaction { unregisters : list Listener; throws : option JsError }.

(** The code of the listeners, which the callers of the store write. *)
Class Listeners : Type := { listener : Listener -> Changes -> Reaction }.

Section WithEngine.

Context `{!Engine} `{!Listeners}.

(** An instance of the class.  [listeners] is the private set, in insertion
    order; [delivered] records every call made to a listener, oldest
    first. *)
Record Fireproof : Type := mkFireproof {
  blocks : Blockstore;
  clock : Clock;
  config : option Config;
  authCtx : JsVal;
  instanceId : string;
  listeners : list Listener;
  delivered : list (Listener * Changes)
}.

(** A row of [changesSince]: [{ key, value }] or [{ key, del: true }]; a
    missing [value] reads [undefined], a missing [del] reads as false. *)
Record Row : Type := mkRow { row_key : string; row_value : JsVal; row_del : bool }.

Record ChangesResult : Type := mkChanges { rows : list Row; changes_clock : Clock }.

Record PutOutcome : Type := mkPutOutcome { id : string; out_clock : Clock }.

Definition with_clock (db : Fireproof) (c : Clock) : Fireproof :=
  mkFireproof (blocks db) c (config db) (authCtx db) (instanceId db)
    (listeners db) (delivered db).

Definition with_blocks (db : Fireproof) (b : Blockstore) : Fireproof :=
  mkFireproof b (clock db) (config db) (authCtx db) (instanceId db)
    (listeners db) (delivered db).

Definition with_listeners (db : Fireproof) (ls : list Listener) : Fireproof :=
  mkFireproof (blocks db) (clock db) (config db) (authCtx db) (instanceId db)
    ls (delivered db).

Definition with_delivered (db : Fireproof) (d : list (Listener * Changes)) : Fireproof :=
  mkFireproof (blocks db) (clock db) (config db) (authCtx db) (instanceId db)
    (listeners db) d.

(** [new Fireproof(blocks, clock, config = {}, authCtx = {})]; [rnd] is the
    text [Math.random().toString(36).substring(2, 7)]. *)
Definition new_Fireproof (b : Blockstore) (c : Clock) (cfg : option Config)
    (auth : JsVal) (rnd : string) : Fireproof :=
  mkFireproof b c cfg auth (String.append "db." rnd) [] [].

(** [snapshot(clock)]: a new instance on the same blocks, at [clock] or at
    the current clock. *)
Definition snapshot (db : Fireproof) (c : option Clock) (rnd : string) : Fireproof :=
  new_Fireproof (blocks db) (match c with Some c' => c' | None => clock db end)
    (Some (mkConfig None)) (VObj []) rnd.

(** The loop [for (const listener of this.#listeners) await listener(changes)]
    over the live set, in insertion order: a listener taken out of the set
    before its turn is passed over, and the loop ends at the first listener
    that throws.  [removed] are the listeners taken out so far, [calls] the
    calls made so far. *)
Fixpoint notify (pending removed : list Listener) (changes : Changes)
    (calls : list (Listener * Changes))
    : list Listener * list (Listener * Changes) * option JsError :=
  match pending with
  | [] => (removed, calls, None)
  | l :: pending' =>
      if existsb (Nat.eqb l) removed then notify pending' removed changes calls
      else
        let r := listener l changes in
        let removed' := removed ++ unregisters r in
        let calls' := calls ++ [(l, changes)] in
        match throws r with
        | Some e => (removed', calls', Some e)
        | None => notify pending' removed' changes calls'
        end
  end.

(** [#notifyListeners(changes)]: the store after the loop, and whether the
    loop completed or a listener threw. *)
Definition notifyListeners (db : Fireproof) (changes : Changes) : Fireproof * Result unit :=
  let '(removed, calls, thrown) := notify (listeners db) [] changes (delivered db) in
  let kept := List.filter (fun l => negb (existsb (Nat.eqb l) removed)) (listeners db) in
  (with_delivered (with_listeners db kept) calls,
   match thrown with
   | Some e => Throw e
   | None => Ok tt
   end).

(** [setClock(clock)]: a link object [{ '/': cid }] is replaced by its
    [cid]; the listeners get the clock as it was handed in. *)
Definition clock_item (item : ClockItem) : CID :=
  match item with
  | Link c => c
  | Plain c => c
  end.

Definition setClock (db : Fireproof) (c : list ClockItem) : Fireproof * Result unit :=
  notifyListeners (with_clock db (map clock_item c)) (Reset c).

Definition toJSON (db : Fireproof) : Clock := clock db.

Definition row_of_event (e : EventData) : Row :=
  match ev_type e with
  | TDel => mkRow (ev_key e) VUndefined true
  | TPut => mkRow (ev_key e) (ev_value e) false
  end.

Definition collect (resp : list EventData) : list (string * Row) :=
  fold_left (fun docsMap e => map_set (ev_key e) (row_of_event e) docsMap) resp [].

(** [changesSince(event)]: [None] is [null] or [undefined]; an array, also
    the empty one, is truthy. *)
Definition changesSince (db : Fireproof) (event : option Clock) : ChangesResult :=
  match event with
  | Some ev =>
      let resp := eventsSince (blocks db) (clock db) ev in
      mkChanges (map_values (collect resp)) (clock db)
  | None =>
      mkChanges
        (map (fun e => mkRow (en_key e) (en_value e) false) (getAll (blocks db) (clock db)))
        (clock db)
  end.

Definition registerListener (db : Fireproof) (l : Listener) : Fireproof :=
  if existsb (Nat.eqb l) (listeners db) then db
  else with_listeners db (listeners db ++ [l]).

Definition unregisterListener (db : Fireproof) (l : Listener) : Fireproof :=
  with_listeners db (List.filter (fun l' => negb (Nat.eqb l l')) (listeners db)).

(** [get(key)]: the tombstone [null] is Not found; [got._id = key] throws
    on [undefined] and, the module being strict, on a primitive.  An
    array would take the property beside its items; the store writes
    objects and [null] only. *)
Definition get (db : Fireproof) (key : string) : Result JsVal :=
  match Prolly.get (blocks db) (clock db) key with
  | VNull => Throw (Error "Not found")
  | VObj props => Ok (VObj (set_prop "_id" (VStr key) props))
  | VArr l => Ok (VArr l)
  | VUndefined => Throw (TypeError "Cannot set properties of undefined (setting '_id')")
  | _ => Throw (TypeError "Cannot create property '_id'")
  end.

(** [#runValidation(doc)]: [Some e] when the hook throws [e]. *)
Definition runValidation (db : Fireproof) (doc_id : string) (doc : JsVal) : option JsError :=
  match config db with
  | Some cfg =>
      match validateChange cfg with
      | Some validate =>
          let oldDoc := match get db doc_id with Ok d => d | Throw _ => VObj [] end in
          validate doc oldDoc (authCtx db)
      | None => None
      end
  | None => None
  end.

(** [doTransaction('#putToProllyTree', this.blocks, fn)] followed by the
    rest of [#putToProllyTree(event)]. *)
Definition putToProllyTree (db : Fireproof) (event : PutEvent)
    : Fireproof * Result PutOutcome :=
  let '(blocks', result) := Prolly.put (blocks db) (clock db) event in
  let db1 := with_blocks db blocks' in
  match result with
  | None => (db1, Throw (Error "failed to put at storage layer"))
  | Some r =>
      let db2 := with_clock db1 (head r) in
      match notifyListeners db2 (Committed [event]) with
      | (db3, Throw e) => (db3, Throw e)
      | (db3, Ok _) => (db3, Ok (mkPutOutcome (pe_key event) (clock db3)))
      end
  end.

(** [{ _id: id, ...doc }]. *)
Definition with_id (doc_id : string) (doc : list (string * JsVal)) : JsVal :=
  VObj (fold_left (fun acc p => set_prop (fst p) (snd p) acc) doc [("_id", VStr doc_id)]).

(** [_id || 'f' + Math.random().toString(36).slice(2)]. *)
Definition id_or_random (_id : option string) (rnd : string) : string :=
  match _id with
  | Some s => if String.eqb s EmptyString then String.append "f" rnd else s
  | None => String.append "f" rnd
  end.

(** [put({ _id, ...doc })]; [rnd] is [Math.random().toString(36).slice(2)]. *)
Definition put (db : Fireproof) (_id : option string) (doc : list (string * JsVal))
    (rnd : string) : Fireproof * Result PutOutcome :=
  let id := id_or_random _id rnd in
  match runValidation db id (with_id id doc) with
  | Some e => (db, Throw e)
  | None => putToProllyTree db (mkPutEvent id (VObj doc))
  end.

(** [del(id)]: the tombstone is a put of the value [null]. *)
Definition del (db : Fireproof) (id : string) : Fireproof * Result PutOutcome :=
  match runValidation db id (VObj [("_id", VStr id); ("_deleted", VBool true)]) with
  | Some e => (db, Throw e)
  | None => putToProllyTree db (mkPutEvent id VNull)
  end.

End WithEngine.

End Fireproof.

(** ** An engine over a linear event log *)

Module LogEngine.

Import Prolly.

(** Modelled from the spec: the blocks of [prolly.js], which is not among
    the source files, as the event log of a single writer.  The block at
    position [n] holds the event whose content identifier is [n], and its
    parent is the event before it.  A clock [[n]] is the frontier after
    event [n], the empty clock the frontier of the empty log. *)
Definition Log : Type := list EventData.

(** The number of events a clock can see. *)
Definition horizon (c : Clock) : nat :=
  match c with
  | [] => 0%nat
  | _ => S (list_max c)
  end.

Definition visible (log : Log) (c : Clock) : Log := firstn (horizon c) log.

Definition frontier (log : Log) : Clock :=
  match length log with
  | O => []
  | S n => [n]
  end.

Definition clock_eqb (c1 c2 : Clock) : bool :=
  bool_decide (c1 = c2).

(** Modelled from the spec: [put] of [prolly.js],
    [put(blocks, clock, event) -> { head, id } | null].  The event is
    appended after the frontier as a put of its value; a clock that is not
    the frontier of the log cannot be committed against, and the engine
    returns no result. *)
Definition log_put (log : Log) (c : Clock) (e : PutEvent) : Log * option PutResult :=
  if clock_eqb c (frontier log)
  then (log ++ [mkEventData (pe_key e) TPut (pe_value e)], Some (mkPutResult [length log]))
  else (log, None).

(** Modelled from the spec: [get] of [prolly.js],
    [get(blocks, clock, key) -> value | null]: the value of the last
    visible event of the key. *)
Definition log_get (log : Log) (c : Clock) (k : string) : JsVal :=
  match latest (visible log c) k with
  | Some e => match ev_type e with TPut => ev_value e | TDel => VNull end
  | None => VNull
  end.

(** The tree of current values, in order of first write: a put sets the
    value of its key, an engine-level delete removes the key. *)
Definition apply_event (t : list (string * JsVal)) (e : EventData) : list (string * JsVal) :=
  match ev_type e with
  | TPut => map_set (ev_key e) (ev_value e) t
  | TDel => map_delete (ev_key e) t
  end.

Definition tree_at (log : Log) (c : Clock) : list (string * JsVal) :=
  fold_left apply_event (visible log c) [].

(** Modelled from the spec: [getAll] of [prolly.js],
    [getAll(blocks, clock) -> [{ key, value }]], by which the store gives
    its full snapshot of every live document: the entries of the tree
    whose value is not absent. *)
Definition log_getAll (log : Log) (c : Clock) : list Entry :=
  map (fun p => mkEntry (fst p) (snd p))
    (List.filter (fun p => match snd p with VNull => false | _ => true end) (tree_at log c)).

(** Modelled from the spec: [eventsSince] of [prolly.js],
    [eventsSince(blocks, clock, sinceClock) -> [{ key, type, value }]]: the
    events the clock sees and [sinceClock] does not, oldest first. *)
Definition log_eventsSince (log : Log) (c since : Clock) : list EventData :=
  skipn (horizon since) (visible log c).

#[export] Instance engine : Engine := {
  Blockstore := Log;
  put := log_put;
  get := log_get;
  getAll := log_getAll;
  eventsSince := log_eventsSince
}.

(** [Fireproof.storage()]: a new store over empty blocks and the empty
    clock. *)
Definition storage (rnd : string) : Fireproof.Fireproof :=
  Fireproof.new_Fireproof ([] : Log) [] (Some (Fireproof.mkConfig None)) (VObj []) rnd.

End LogEngine.

(** ** Listeners to run the store with *)

Module Callbacks.

Import Fireproof.

(** The listener 13 throws, the listener 21 unregisters itself the first
    time it is called, every other listener returns. *)
Definition react (l : Listener) (changes : Changes) : Reaction :=
  match l with
  | 13%nat => mkReaction [] (Some (Error "listener failed"))
  | 21%nat => mkReaction [21%nat] None
  | _ => mkReaction [] None
  end.

#[export] Instance callbacks : Listeners := {| listener := react |}.

End Callbacks.

(** ** The secondary indexes ([db-index.js]) *)

Module DbIndex.

Import Prolly Compare.

Definition ALWAYS_REBUILD : bool := false.

(** The package charwise: the order-preserving encoding of emitted keys. *)
Class Charwise : Type := {
  encode : JsVal -> string;
  decode : JsVal -> JsVal
}.

(** An entry handed to the tree: [{ key, value }] or [{ key, del: true }]. *)
Record IndexEntry : Type :=
  mkIndexEntry { ie_key : JsVal; ie_value : JsVal; ie_del : bool }.

(** A row of a tree query: [{ id, key, row }]. *)
Record ResultRow : Type := mkResultRow { rr_id : JsVal; rr_key : JsVal; rr_row : JsVal }.

(** The options of a tree; [cache], [chunker], [codec] and [hasher] are the
    same constants in both option sets, only [compare] differs. *)
Record TreeOpts : Type := mkTreeOpts { opt_compare : JsVal -> JsVal -> Result Z }.

(** The package prolly-trees/db-index, as section 6 of the specification
    lists what the index consumes: [create], [load], [bulk], [getMany],
    [range], [get], [getAllEntries] over nodes, each node with its block. *)
Class TreeLib : Type := {
  Node : Type;
  Bytes : Type;
  Cids : Type;
  create : (CID -> option Bytes) -> list IndexEntry -> TreeOpts -> list Node;
  load : (CID -> option Bytes) -> CID -> TreeOpts -> Node;
  block : Node -> CID * Bytes;
  bulk : Node -> list IndexEntry -> Node * list (CID * Bytes);
  getMany : Node -> list JsVal -> list JsVal;
  range : Node -> list JsVal -> list ResultRow * Cids;
  get : Node -> JsVal -> list ResultRow * Cids;
  getAllEntries : Node -> list IndexEntry * Cids
}.

(** [cidsToProof] of [fireproof.js], which the source file at hand does
    not define, taken as a parameter: the proof artifact made of the
    content identifiers of the blocks a query touched. *)
Class ProofLib `{TreeLib} : Type := {
  Proof : Type;
  cidsToProof : option Cids -> Proof
}.

(** The matches of the regular expression of [makeName] in a source
    text, each already trimmed. *)
Class NameRegex : Type := { name_matches : string -> list string }.

(** A user's map function: the calls [emit(k, v)] it makes on a document,
    in order. *)
Definition MapFn : Type := JsVal -> list (JsVal * JsVal).

Section WithLibraries.

Context `{!ProllyUtils} `{!Charwise} `{!TreeLib} `{!ProofLib} `{!NameRegex} `{!Engine}.

(** Modelled from the spec: the [TransactionBlockstore] of [blockstore.js],
    which is not among the source files; blocks by content identifier. *)
Definition IndexBlocks : Type := gmap CID Bytes.

(** Modelled from the spec: [makeGetBlock(blocks)] of [prolly.js]. *)
Definition getBlock (blocks : IndexBlocks) : CID -> option Bytes :=
  fun c => blocks !! c.

Definition putBlock (blocks : IndexBlocks) (b : CID * Bytes) : IndexBlocks :=
  <[fst b := snd b]> blocks.

(** Modelled from the spec: [doTransaction(label, blocks, fn)] of
    [blockstore.js].  The blocks the unit wrote become visible only if the
    unit completes; what the unit did to objects of the heap stays. *)
Definition doTransaction {S A : Type} (blocks : IndexBlocks) (st : S)
    (fn : IndexBlocks -> S -> S * IndexBlocks * Result A) : S * IndexBlocks * Result A :=
  let '(st', inner, r) := fn blocks st in
  match r with
  | Ok a => (st', inner, Ok a)
  | Throw e => (st', blocks, Throw e)
  end.

Definition dbIndexOpts : TreeOpts := mkTreeOpts compare.
Definition idIndexOpts : TreeOpts := mkTreeOpts (fun a b => Ok (simpleCompare a b)).

(** [makeDoc({ key, value })], that is [{ _id: key, ...value }]. *)
Definition makeDoc (key : string) (value : JsVal) : JsVal :=
  VObj (fold_left (fun acc p => set_prop (fst p) (snd p) acc) (own_props value)
          [("_id", VStr key)]).

(** The callback handed to the map function as [emit]. *)
Definition emit (key : string) (indexEntries : list IndexEntry) (kv : JsVal * JsVal)
    : list IndexEntry :=
  let '(k, v) := kv in
  if typeof_undefined v || typeof_undefined k then indexEntries
  else indexEntries ++ [mkIndexEntry (VArr [VStr (encode k); VStr key]) v false].

(** [del || !value]: the change is passed over. *)
Definition skips (change : Fireproof.Row) : bool :=
  Fireproof.row_del change || negb (truthy (Fireproof.row_value change)).

(** The body of [changes.forEach]: the entries pushed so far and the
    documents the map function has been called with. *)
Definition forEach_change (mapFn : MapFn) (acc : list IndexEntry * list JsVal)
    (change : Fireproof.Row) : list IndexEntry * list JsVal :=
  if skips change then acc
  else
    let doc := makeDoc (Fireproof.row_key change) (Fireproof.row_value change) in
    (fold_left (emit (Fireproof.row_key change)) (mapFn doc) (fst acc), snd acc ++ [doc]).

Definition run_indexEntriesForChanges (changes : list Fireproof.Row) (mapFn : MapFn)
    : list IndexEntry * list JsVal :=
  fold_left (forEach_change mapFn) changes ([], []).

Definition indexEntriesForChanges (changes : list Fireproof.Row) (mapFn : MapFn)
    : list IndexEntry :=
  fst (run_indexEntriesForChanges changes mapFn).

(** The documents [indexEntriesForChanges] calls the map function with. *)
Definition mapFn_calls (changes : list Fireproof.Row) (mapFn : MapFn) : list JsVal :=
  snd (run_indexEntriesForChanges changes mapFn).

(** One of the two trees of an index: [{ root, cid }]. *)
Record IndexRoot : Type := mkIndexRoot { root : option Node; cid : option CID }.

(** [loadIndex(blocks, index, indexOpts)]: the object [index] after the
    call. *)
Definition loadIndex (blocks : IndexBlocks) (index : IndexRoot) (indexOpts : TreeOpts)
    : IndexRoot :=
  match root index with
  | Some _ => index
  | None =>
      match cid index with
      | None => index
      | Some c => mkIndexRoot (Some (load (getBlock blocks) c indexOpts)) (Some c)
      end
  end.

(** [bulkIndex(blocks, inIndex, indexEntries, opts)]: the blocks after the
    puts and the returned [{ root, cid }].  When [create] yields no node,
    [returnRootBlock.cid] reads a property of [undefined].  The root
    loaded into [inIndex] is not kept apart: the caller replaces the
    object by the one returned. *)
Definition bulkIndex (blocks : IndexBlocks) (inIndex : IndexRoot)
    (indexEntries : list IndexEntry) (opts : TreeOpts) : IndexBlocks * Result IndexRoot :=
  match indexEntries with
  | [] => (blocks, Ok inIndex)
  | _ =>
      let with_root (node : Node) :=
        let '(root', newBlocks) := bulk node indexEntries in
        let returnRootBlock := block root' in
        let blocks1 := fold_left putBlock newBlocks blocks in
        let blocks2 := putBlock blocks1 returnRootBlock in
        (blocks2, Ok (mkIndexRoot (Some root') (Some (fst returnRootBlock)))) in
      match root inIndex with
      | Some node => with_root node
      | None =>
          match cid inIndex with
          | None =>
              let nodes := create (getBlock blocks) indexEntries opts in
              let blocks1 := fold_left (fun b node => putBlock b (block node)) nodes blocks in
              match last (nodes : list Node) with
              | Some returnNode =>
                  (blocks1, Ok (mkIndexRoot (Some returnNode) (Some (fst (block returnNode)))))
              | None =>
                  (blocks1,
                   Throw (TypeError "Cannot read properties of undefined (reading 'cid')"))
              end
          | Some c => with_root (load (getBlock blocks) c dbIndexOpts)
          end
      end
  end.

(** A reference to a [DbIndex] object and to a promise. *)
Definition Ref : Type := nat.
Definition PromiseId : Type := nat.

(** An instance of the class. *)
Record DbIndex : Type := mkDbIndex {
  mapFn : option MapFn;
  mapFnString : string;
  name : option string;
  indexById : IndexRoot;
  indexByKey : IndexRoot;
  dbHead : option Clock;
  instanceId : string;
  updateIndexPromise : option PromiseId
}.

(** The database as an index holds it: the document store, the blocks of
    the indexes (an absent blockstore and an empty one read the same), the
    registry [indexes] by source text, and the calls of [notifyExternal],
    oldest first. *)
Record Database : Type := mkDatabase {
  store : Fireproof.Fireproof;
  indexBlocks : IndexBlocks;
  indexes : gmap string Ref;
  external : list string
}.

Definition set_dbHead (this : DbIndex) (h : option Clock) : DbIndex :=
  mkDbIndex (mapFn this) (mapFnString this) (name this) (indexById this)
    (indexByKey this) h (instanceId this) (updateIndexPromise this).

Definition set_indexById (this : DbIndex) (i : IndexRoot) : DbIndex :=
  mkDbIndex (mapFn this) (mapFnString this) (name this) i
    (indexByKey this) (dbHead this) (instanceId this) (updateIndexPromise this).

Definition set_indexByKey (this : DbIndex) (i : IndexRoot) : DbIndex :=
  mkDbIndex (mapFn this) (mapFnString this) (name this) (indexById this)
    i (dbHead this) (instanceId this) (updateIndexPromise this).

Definition set_updateIndexPromise (this : DbIndex) (p : option PromiseId) : DbIndex :=
  mkDbIndex (mapFn this) (mapFnString this) (name this) (indexById this)
    (indexByKey this) (dbHead this) (instanceId this) p.

Definition set_cid (i : IndexRoot) (c : option CID) : IndexRoot := mkIndexRoot (root i) c.

Definition set_indexBlocks (d : Database) (b : IndexBlocks) : Database :=
  mkDatabase (store d) b (indexes d) (external d).

Definition set_indexes (d : Database) (m : gmap string Ref) : Database :=
  mkDatabase (store d) (indexBlocks d) m (external d).

(** [database.notifyExternal(source)]. *)
Definition notifyExternal (d : Database) (source : string) : Database :=
  mkDatabase (store d) (indexBlocks d) (indexes d) (external d ++ [source]).

(** *** The registry *)

(** The objects of the heap and the database that registers them. *)
Record Heap : Type := mkHeap { objects : gmap Ref DbIndex; heap_database : Database }.

(** [to.dbHead = from.dbHead], [to.indexById.cid = from.indexById.cid],
    [to.indexByKey.cid = from.indexByKey.cid]. *)
Definition absorb (to from : DbIndex) : DbIndex :=
  set_indexByKey
    (set_indexById (set_dbHead to (dbHead from))
       (set_cid (indexById to) (cid (indexById from))))
    (set_cid (indexByKey to) (cid (indexByKey from))).

(** [DbIndex.registerWithDatabase(inIndex, database)].  A reference always
    names an object of the heap; on one that does not, nothing is done. *)
Definition registerWithDatabase (inIndex : Ref) (h : Heap) : Heap :=
  match objects h !! inIndex with
  | None => h
  | Some inObj =>
      let database := heap_database h in
      match indexes database !! mapFnString inObj with
      | None =>
          mkHeap (objects h) (set_indexes database (<[mapFnString inObj := inIndex]> (indexes database)))
      | Some existingIndex =>
          match objects h !! existingIndex with
          | None => h
          | Some existingObj =>
              match mapFn existingObj with
              | Some _ =>
                  mkHeap (<[existingIndex := absorb existingObj inObj]> (objects h)) database
              | None =>
                  mkHeap (<[inIndex := absorb inObj existingObj]> (objects h))
                    (set_indexes database
                       (<[mapFnString inObj := inIndex]> (indexes database)))
              end
          end
      end
  end.

(** The map function handed to the constructor: a source text, or a
    function with the text [mapFn.toString()]. *)
Inductive MapFnArg : Type :=
| Source (code : string)
| Code (fn : MapFn) (code : string).

(** The [clock] of a persisted index: [{ db, byId, byKey }]. *)
Record IndexClock : Type :=
  mkIndexClock { db : option Clock; byId : option CID; byKey : option CID }.

Record IndexOpts : Type := mkIndexOpts { opt_name : option string; temporary : bool }.

(** [makeName()]: the second match of the regular expression. *)
Definition makeName (code : string) : option string := name_matches code !! 1%nat.

(** The reference of a newly made object: one no object has. *)
Definition fresh_ref (objs : gmap Ref DbIndex) : Ref :=
  S (list_max (map fst (map_to_list objs))).

(** [new DbIndex(database, mapFn, clock, opts = {})]; [rnd] is the random
    suffix of the instance id. *)
Definition new_DbIndex (h : Heap) (arg : MapFnArg) (clock : option IndexClock)
    (opts : IndexOpts) (rnd : string) : Ref * Heap :=
  let '(fn, code) :=
    match arg with
    | Source code => (None, code)
    | Code fn code => (Some fn, code)
    end in
  let name :=
    match opt_name opts with
    | Some n => if String.eqb n EmptyString then makeName code else Some n
    | None => makeName code
    end in
  let this :=
    mkDbIndex fn code name
      (mkIndexRoot None (clock ≫= byId))
      (mkIndexRoot None (clock ≫= byKey))
      (clock ≫= db)
      (String.append (Fireproof.instanceId (store (heap_database h)))
         (String.append ".DbIndex." rnd))
      None in
  let r := fresh_ref (objects h) in
  let h1 := mkHeap (<[r := this]> (objects h)) (heap_database h) in
  (r, if temporary opts then h1 else registerWithDatabase r h1).

(** The persisted descriptor of an index: [{ name, code, clock }]. *)
Record IndexJson : Type :=
  mkIndexJson { json_name : option string; json_code : string; json_clock : IndexClock }.

Definition toJSON (this : DbIndex) : IndexJson :=
  mkIndexJson (name this) (mapFnString this)
    (mkIndexClock (dbHead this) (cid (indexById this)) (cid (indexByKey this))).

Definition fromJSON (h : Heap) (j : IndexJson) (rnd : string) : Ref * Heap :=
  new_DbIndex h (Source (json_code j)) (Some (json_clock j))
    (mkIndexOpts (json_name j) false) rnd.

(** *** Updating an index *)

(** An index object together with its database. *)
Record World : Type := mkWorld { this : DbIndex; database : Database }.

Definition missing_map_function (code : string) : JsError :=
  Error (String.append
    "No live map function installed for index, cannot update. Make sure your index definition runs before any queries."
    (if String.eqb code EmptyString then EmptyString
     else String.append " Your code should match the stored map function source:"
            (String.append newline code))).

(** The entries to remove, read from the id index:
    [oldIndexEntries] and [removeByIdIndexEntries]. *)
Definition old_entries (this : DbIndex) (rows : list Fireproof.Row)
    : Result (list IndexEntry * list IndexEntry) :=
  match dbHead this with
  | None => Ok ([], [])
  | Some _ =>
      match root (indexById this) with
      | None => Throw (TypeError "Cannot read properties of null (reading 'getMany')")
      | Some node =>
          let oldChangeEntries := getMany node (map (fun r => VStr (Fireproof.row_key r)) rows) in
          let oldIndexEntries := map (fun key => mkIndexEntry key VUndefined true) oldChangeEntries in
          bind (mapM (fun e => bind (js_index (ie_key e) 1)
                                 (fun k1 => Ok (mkIndexEntry k1 VUndefined true)))
                  oldIndexEntries)
            (fun removeByIdIndexEntries => Ok (oldIndexEntries, removeByIdIndexEntries))
      end
  end.

(** The index after [loadIndex(blocks, this.indexById, idIndexOpts)] and
    [loadIndex(blocks, this.indexByKey, dbIndexOpts)]. *)
Definition loaded (blocks : IndexBlocks) (this0 : DbIndex) : DbIndex :=
  let this1 := set_indexById this0 (loadIndex blocks (indexById this0) idIndexOpts) in
  set_indexByKey this1 (loadIndex blocks (indexByKey this1) dbIndexOpts).

(** The function handed to [doTransaction('updateIndex', inBlocks, fn)]. *)
Definition updateIndex_transaction (result : Fireproof.ChangesResult)
    (blocks : IndexBlocks) (this0 : DbIndex) : DbIndex * IndexBlocks * Result unit :=
  let this2 := loaded blocks this0 in
  match old_entries this2 (Fireproof.rows result) with
  | Throw e => (this2, blocks, Throw e)
  | Ok (oldIndexEntries, removeByIdIndexEntries) =>
      match mapFn this2 with
      | None => (this2, blocks, Throw (missing_map_function (mapFnString this2)))
      | Some fn =>
          let indexEntries := indexEntriesForChanges (Fireproof.rows result) fn in
          match mapM (fun e => bind (js_index (ie_key e) 1)
                                 (fun k1 => Ok (mkIndexEntry k1 (ie_key e) false)))
                  indexEntries with
          | Throw e => (this2, blocks, Throw e)
          | Ok byIdIndexEntries =>
              let '(blocks1, r1) :=
                bulkIndex blocks (indexById this2)
                  (removeByIdIndexEntries ++ byIdIndexEntries) idIndexOpts in
              match r1 with
              | Throw e => (this2, blocks1, Throw e)
              | Ok byId' =>
                  let this3 := set_indexById this2 byId' in
                  let '(blocks2, r2) :=
                    bulkIndex blocks1 (indexByKey this3)
                      (oldIndexEntries ++ indexEntries) dbIndexOpts in
                  match r2 with
                  | Throw e => (this3, blocks2, Throw e)
                  | Ok byKey' =>
                      (set_dbHead (set_indexByKey this3 byKey')
                         (Some (Fireproof.changes_clock result)),
                       blocks2, Ok tt)
                  end
              end
          end
      end
  end.

Definition rebuild (this : DbIndex) : DbIndex :=
  if ALWAYS_REBUILD
  then set_dbHead
         (set_indexByKey (set_indexById this (mkIndexRoot None None)) (mkIndexRoot None None))
         None
  else this.

(** [innerUpdateIndex(inBlocks)], with [inBlocks] the blocks of the
    indexes of the database, as [query] passes them.  The awaits are taken
    in sequence, with no other task in between. *)
Definition innerUpdateIndex (w : World) : World * Result unit :=
  let this0 := rebuild (this w) in
  let result := Fireproof.changesSince (store (database w)) (dbHead this0) in
  match Fireproof.rows result with
  | [] => (mkWorld (set_dbHead this0 (Some (Fireproof.changes_clock result))) (database w), Ok tt)
  | _ =>
      let '(this1, blocks, r) :=
        doTransaction (indexBlocks (database w)) this0 (updateIndex_transaction result) in
      let database1 := set_indexBlocks (database w) blocks in
      match r with
      | Throw e => (mkWorld this1 database1, Throw e)
      | Ok _ => (mkWorld this1 (notifyExternal database1 "dbIndex"), Ok tt)
      end
  end.

(** *** Queries *)

(** [{ range, key, limit }]: a missing [range] is [None], a missing [key]
    is [undefined], a missing [limit] is [None]. *)
Record Query : Type :=
  mkQuery { q_range : option (list JsVal); q_key : JsVal; q_limit : option Z }.

(** What a tree query answers: [{ result, cids }]. *)
Record Response : Type := mkResponse { result : list ResultRow; cids : option Cids }.

Definition without_limit (query : Query) : Query :=
  mkQuery (q_range query) (q_key query) None.

Definition applyLimit (results : Response) (limit : option Z) : Response :=
  mkResponse (slice0 (result results) limit) (cids results).

(** [doIndexQuery(blocks, indexByKey, query = {})]: the object [indexByKey]
    after the call and the response. *)
Definition doIndexQuery (blocks : IndexBlocks) (indexByKey : IndexRoot) (query : Query)
    : IndexRoot * Result Response :=
  let index := loadIndex blocks indexByKey dbIndexOpts in
  match root index with
  | None => (index, Ok (mkResponse [] None))
  | Some node =>
      match q_range query with
      | Some bounds =>
          let encodedRange := map (fun key => VStr (encode key)) bounds in
          let '(rows, c) := range node encodedRange in
          (index, Ok (applyLimit (mkResponse rows (Some c)) (q_limit query)))
      | None =>
          if truthy (q_key query) then
            let encodedKey := VStr (encode (q_key query)) in
            let '(rows, c) := get node encodedKey in
            (index, Ok (mkResponse rows (Some c)))
          else
            let '(entries, c) := getAllEntries node in
            (index,
             bind (mapM (fun e => bind (destructure2 (ie_key e))
                                    (fun '(k, id) => Ok (mkResultRow id k (ie_value e))))
                     entries)
               (fun rows => Ok (applyLimit (mkResponse rows (Some c)) (q_limit query))))
      end
  end.

(** [await this.updateIndex(blocks)] seen from its caller: the pass runs
    to its end, and the [finally] handler has reset [updateIndexPromise]
    when the caller goes on. *)
Definition await_updateIndex (w : World) : World * Result unit :=
  let '(w1, r) := innerUpdateIndex w in
  (mkWorld (set_updateIndexPromise (this w1) None) (database w1), r).

(** A row of [query]: [{ id, key, value }]. *)
Record QueryRow : Type := mkQueryRow { qr_id : JsVal; qr_key : JsVal; qr_value : JsVal }.

Record QueryResult : Type := mkQueryResult { proof : Proof; query_rows : list QueryRow }.

(** [query(query, update = true)]. *)
Definition query (w : World) (q : Query) (update : bool) : World * Result QueryResult :=
  let '(w1, r) := if update then await_updateIndex w else (w, Ok tt) in
  match r with
  | Throw e => (w1, Throw e)
  | Ok _ =>
      let '(index, resp) :=
        doIndexQuery (indexBlocks (database w1)) (indexByKey (this w1)) q in
      let w2 := mkWorld (set_indexByKey (this w1) index) (database w1) in
      match resp with
      | Throw e => (w2, Throw e)
      | Ok response =>
          (w2,
           Ok (mkQueryResult (cidsToProof (cids response))
                 (map (fun r => mkQueryRow (rr_id r) (decode (rr_key r)) (rr_row r))
                    (result response))))
      end
  end.

(** *** Callers that overlap *)

(** The index between the tasks of the event loop.  [settled] holds, for
    every promise of [innerUpdateIndex] that has settled, its outcome and
    the [dbHead] its awaiters find; [passes] counts the calls of
    [innerUpdateIndex]. *)
Record Loop : Type := mkLoop {
  world : World;
  settled : gmap PromiseId (Result unit * option Clock);
  next_promise : PromiseId;
  passes : nat
}.

(** [updateIndex(blocks)]: the promise the caller gets. *)
Definition updateIndex (l : Loop) : PromiseId * Loop :=
  match updateIndexPromise (this (world l)) with
  | Some p => (p, l)
  | None =>
      let p := next_promise l in
      (p, mkLoop (mkWorld (set_updateIndexPromise (this (world l)) (Some p))
                    (database (world l)))
            (settled l) (S p) (S (passes l)))
  end.

(** The pass in flight comes to its end: the promise settles and its
    [finally] handler resets [updateIndexPromise].  The pass is taken as
    one step. *)
Definition settle (l : Loop) : Loop :=
  match updateIndexPromise (this (world l)) with
  | None => l
  | Some p =>
      let '(w1, r) := innerUpdateIndex (world l) in
      mkLoop (mkWorld (set_updateIndexPromise (this w1) None) (database w1))
        (<[p := (r, dbHead (this w1))]> (settled l)) (next_promise l) (passes l)
  end.

(** What the holder of a promise finds once it has settled. *)
Definition awaited (l : Loop) (p : PromiseId) : option (Result unit * option Clock) :=
  settled l !! p.

(** [n] more callers, one after the other. *)
Fixpoint callers (n : nat) (l : Loop) : list PromiseId * Loop :=
  match n with
  | O => ([], l)
  | S n' =>
      let '(p, l1) := updateIndex l in
      let '(ps, l2) := callers n' l1 in
      (p :: ps, l2)
  end.

End WithLibraries.

End DbIndex.

(** ** Stand-ins for the packages, to run the definitions *)

Module Standin.

Import Prolly Compare DbIndex.

(** [a === b] on primitive values; two arrays or objects built apart are
    never the same object. *)
Definition strict_eqb (a b : JsVal) : bool :=
  match a, b with
  | VUndefined, VUndefined | VNull, VNull => true
  | VBool x, VBool y => Bool.eqb x y
  | VStr x, VStr y => String.eqb x y
  | VNum PosInfinity, VNum PosInfinity | VNum NegInfinity, VNum NegInfinity => true
  | VNum (Fin x), VNum (Fin y) => Qeq_bool x y
  | _, _ => false
  end.

(** [a > b] on two strings or two numbers; any comparison with NaN is
    false.  Other pairs of types are left at false. *)
Definition js_gt (a b : JsVal) : bool :=
  match a, b with
  | VStr x, VStr y => match String.compare x y with Gt => true | _ => false end
  | VNum (Fin x), VNum (Fin y) => match Qcompare x y with Gt => true | _ => false end
  | VNum PosInfinity, VNum (Fin _) | VNum PosInfinity, VNum NegInfinity => true
  | VNum (Fin _), VNum NegInfinity => true
  | _, _ => false
  end.

(** [simpleCompare] as the package prolly-trees/utils publishes it:
    [if (a === b) return 0; return a > b ? 1 : -1]. *)
Definition simple_compare (a b : JsVal) : Z :=
  if strict_eqb a b then 0 else if js_gt a b then 1 else (-1).

#[export] Instance utils : ProllyUtils := {| simpleCompare := simple_compare |}.

(** An encoding of strings and of the numbers 0 to 9 that keeps their
    order, in place of charwise. *)
Definition digit_of (q : Q) : string := pretty (Z.to_nat (Qnum q)).

Definition encode_key (v : JsVal) : string :=
  match v with
  | VStr s => String.append "J" s
  | VNum (Fin q) => String.append "F" (digit_of q)
  | _ => "A"
  end.

Definition decode_key (v : JsVal) : JsVal :=
  match v with
  | VStr (String c rest) =>
      if Nat.eqb (Ascii.nat_of_ascii c) 74 then VStr rest
      else if Nat.eqb (Ascii.nat_of_ascii c) 70 then
        match rest with
        | String d EmptyString => VNum (Fin (inject_Z (Z.of_nat (Ascii.nat_of_ascii d - 48))))
        | _ => VUndefined
        end
      else VUndefined
  | _ => VUndefined
  end.

#[export] Instance charwise : Charwise := {| encode := encode_key; decode := decode_key |}.

(** A tree as the list of its entries, in place of prolly-trees/db-index:
    one node, whose content identifier is a digest of its keys. *)
Definition ListNode : Type := list (JsVal * JsVal).

Fixpoint digest_string (s : string) : N :=
  match s with
  | EmptyString => 7
  | String c s' => ((N.of_nat (Ascii.nat_of_ascii c) + 31 * digest_string s') mod 997)%N
  end.

Definition digest_key (k : JsVal) : N :=
  match k with
  | VStr s => digest_string s
  | VArr [VStr a; VStr b] => ((digest_string a * 131 + digest_string b) mod 997)%N
  | _ => 3%N
  end.

Definition digest (node : ListNode) : CID :=
  N.to_nat (fold_left (fun h e => ((h * 17 + digest_key (fst e) + 1) mod 997)%N) node 11%N).

(** Entries are told apart by their keys: a string, or a pair of
    strings. *)
Definition key_eqb (a b : JsVal) : bool :=
  match a, b with
  | VArr [a1; a2], VArr [b1; b2] => strict_eqb a1 b1 && strict_eqb a2 b2
  | _, _ => strict_eqb a b
  end.

Definition remove_key (k : JsVal) (node : ListNode) : ListNode :=
  List.filter (fun e => negb (key_eqb k (fst e))) node.

Definition apply_entry (node : ListNode) (e : IndexEntry) : ListNode :=
  if ie_del e then remove_key (ie_key e) node
  else remove_key (ie_key e) node ++ [(ie_key e, ie_value e)].

Definition part (i : nat) (k : JsVal) : JsVal :=
  match k with VArr l => nth i l VUndefined | _ => VUndefined end.

Definition row_of (e : JsVal * JsVal) : ResultRow :=
  mkResultRow (part 1 (fst e)) (part 0 (fst e)) (snd e).

Definition in_range (lo hi : JsVal) (e : JsVal * JsVal) : bool :=
  Z.leb 0 (simple_compare (part 0 (fst e)) lo) && Z.leb (simple_compare (part 0 (fst e)) hi) 0.

#[export] Instance tree : TreeLib := {|
  Node := ListNode;
  Bytes := ListNode;
  Cids := list CID;
  create := fun _ entries _ => [fold_left apply_entry entries []];
  load := fun get c _ => match get c with Some node => node | None => [] end;
  block := fun node => (digest node, node);
  bulk := fun node entries => (fold_left apply_entry entries node, []);
  getMany := fun node keys =>
    flat_map (fun k => map snd (List.filter (fun e => key_eqb k (fst e)) node)) keys;
  range := fun node bounds =>
    (map row_of (List.filter (in_range (nth 0 bounds VUndefined) (nth 1 bounds VUndefined)) node),
     [digest node]);
  get := fun node k =>
    (map row_of (List.filter (fun e => strict_eqb (part 0 (fst e)) k) node), [digest node]);
  getAllEntries := fun node =>
    (map (fun e => mkIndexEntry (fst e) (snd e) false) node, [digest node])
|}.

#[export] Instance proofs : ProofLib := {| Proof := option (list CID); cidsToProof := fun c => c |}.

#[export] Instance names : NameRegex := {| name_matches := fun _ => [] |}.

End Standin.

(** ** Stores and indexes to run the definitions on *)

Module Scenario.

Import Prolly Compare Fireproof DbIndex Standin LogEngine Callbacks.

Definition put_doc (db : Fireproof) (id : string) (doc : list (string * JsVal)) : Fireproof :=
  fst (put db (Some id) doc "r1").

(** The store after [put({ _id: 'a', x: 1 })] and [del('a')]. *)
Definition deleted_store : Fireproof :=
  fst (del (put_doc (storage "abcde") "a" [("x", VNum (Fin 1))]) "a").

(** The store after [a] was deleted and [b] was put. *)
Definition deleted_a_live_b : Fireproof := put_doc deleted_store "b" [("x", VNum (Fin 2))].

(** A store with one listener whose clock was set to a head the log does
    not have: the engine cannot commit against it. *)
Definition stale_store : Fireproof :=
  fst (setClock (registerListener (storage "abcde") 1%nat) [Plain 5%nat]).

(** The map function [(doc, emit) => emit(doc.x, doc._id)], followed by
    an emission without a key. *)
Definition prop (doc : JsVal) (k : string) : JsVal :=
  match doc with
  | VObj props => default VUndefined (map_get k props)
  | _ => VUndefined
  end.

Definition by_x : MapFn :=
  fun doc => [(prop doc "x", prop doc "_id"); (VUndefined, VNum (Fin 1))].

Definition source_x : string := "(doc, emit) => emit(doc.x, doc._id)".

(** A put of [a], a delete marker for [b], a tombstone for [c]. *)
Definition sample_changes : list Row :=
  [mkRow "a" (VObj [("x", VNum (Fin 1))]) false;
   mkRow "b" VUndefined true;
   mkRow "c" VNull false].

(** A new index, with or without its live map function. *)
Definition new_index (fn : option MapFn) : DbIndex :=
  mkDbIndex fn source_x None (mkIndexRoot None None) (mkIndexRoot None None) None
    "db.abcde.DbIndex.vwxyz" None.

Definition world_of (index : DbIndex) (db : Fireproof) (blocks : IndexBlocks) : World :=
  mkWorld index (mkDatabase db blocks ∅ []).

(** [DbIndex.fromJSON(database, index.toJSON())]: the index read back from
    its descriptor, without a live map function. *)
Definition rehydrate (w : World) : DbIndex :=
  let '(r, h) := fromJSON (mkHeap ∅ (database w)) (toJSON (this w)) "qrstu" in
  default (new_index None) (objects h !! r).

(** Two documents with the same [x], indexed. *)
Definition store_ab : Fireproof :=
  put_doc (put_doc (storage "abcde") "a" [("x", VNum (Fin 1))]) "b" [("x", VNum (Fin 1))].

Definition world_ab : World := world_of (new_index (Some by_x)) store_ab ∅.

Definition indexed_ab : World := fst (innerUpdateIndex world_ab).

(** The index of [store_ab] read back from its descriptor, over a store
    that has a third document. *)
Definition rehydrated_abc : World :=
  world_of (rehydrate indexed_ab)
    (put_doc store_ab "c" [("x", VNum (Fin 3))]) (indexBlocks (database indexed_ab)).

(** A store whose only document has no [x]: the first update of the index
    emits nothing and writes no tree. *)
Definition store_y : Fireproof := put_doc (storage "abcde") "a" [("y", VNum (Fin 1))].

Definition indexed_y : World :=
  fst (innerUpdateIndex (world_of (new_index (Some by_x)) store_y ∅)).

(** That index read back from its descriptor, over a store that has a
    second document. *)
Definition rehydrated_yx : World :=
  world_of (rehydrate indexed_y)
    (put_doc store_y "b" [("x", VNum (Fin 2))]) (indexBlocks (database indexed_y)).

(** The scenario of the specification: [a] with [x] 1 and [b] with [x] 2
    are indexed and queried, then [a] is deleted and the index queried
    again. *)
Definition store_12 : Fireproof :=
  put_doc (put_doc (storage "abcde") "a" [("x", VNum (Fin 1))]) "b" [("x", VNum (Fin 2))].

Definition first_query : World * Result QueryResult :=
  query (world_of (new_index (Some by_x)) store_12 ∅) (mkQuery None VUndefined None) true.

Definition second_query : World * Result QueryResult :=
  query (world_of (this (fst first_query)) (fst (del store_12 "a"))
           (indexBlocks (database (fst first_query))))
    (mkQuery None VUndefined None) true.

Definition rows_of_query (r : Result QueryResult) : list QueryRow :=
  match r with
  | Ok q => query_rows q
  | Throw _ => []
  end.

(** The registry once the index of [store_ab] was read back from its
    descriptor, and a second instance carrying the live map function,
    constructed and not yet registered. *)
Definition rehydrated_heap : Ref * Heap :=
  fromJSON (mkHeap ∅ (database indexed_ab)) (toJSON (this indexed_ab)) "qrstu".

Definition live_heap : Ref * Heap :=
  new_DbIndex (snd rehydrated_heap) (Code by_x source_x) None (mkIndexOpts None true) "vwxyz".

Definition live_index : DbIndex := new_index (Some by_x).

(** The event loop at rest around [world_ab]. *)
Definition idle_loop : Loop := mkLoop world_ab ∅ 0%nat 0%nat.

End Scenario.

(** ** Notions the properties are stated with *)

Module Notions.

Import Prolly Compare Fireproof DbIndex.

(** What the tree of the log holds for a key: the value of its last
    event, unless that event is an engine-level delete. *)
Definition current_value (l : list EventData) (k : string) : option JsVal :=
  match latest l k with
  | Some e => match ev_type e with TPut => Some (ev_value e) | TDel => None end
  | None => None
  end.

Section WithLibraries.

Context `{!ProllyUtils} `{!Charwise} `{!TreeLib} `{!ProofLib} `{!NameRegex} `{!Engine}.

(** An engine whose [getAll] lists the live documents at a clock: every
    id once, with the value [get] resolves for it, and no id whose value
    is absent. *)
Definition lists_live (b : Blockstore) (c : Clock) : Prop :=
  List.NoDup (map en_key (getAll b c)) /\
  forall k v, In (mkEntry k v) (getAll b c) <-> Prolly.get b c k = v /\ v <> VNull.

(** The rows of deleted documents as the specification states them: with
    a prior clock, the row of an id that [get] no longer finds carries the
    del flag. *)
Definition tombstones_flagged (db : Fireproof) (prior : Clock) : Prop :=
  forall r, In r (rows (changesSince db (Some prior))) ->
    Fireproof.get db (row_key r) = Throw (Error "Not found") -> row_del r = true.

(** The entry an emission [(k, v)] of the document [key] stands for, if
    any: none when [k] or [v] is [undefined]. *)
Definition entry_of (key : string) (kv : JsVal * JsVal) : list IndexEntry :=
  if typeof_undefined (snd kv) || typeof_undefined (fst kv) then []
  else [mkIndexEntry (VArr [VStr (encode (fst kv)); VStr key]) (snd kv) false].

(** The changes the map function is run on. *)
Definition kept (changes : list Row) : list Row :=
  List.filter (fun change => negb (skips change)) changes.

(** The response of a query cut down to a limit. *)
Definition limited (r : Result Response) (limit : option Z) : Result Response :=
  match r with
  | Ok response => Ok (applyLimit response limit)
  | Throw e => Throw e
  end.

End WithLibraries.

End Notions.

(** ** Conditions and cases of the further properties *)

Module Conditions.

Import Prolly Compare Fireproof DbIndex.

(** A value [const [x, y] = v] can take apart: an array or a string. *)
Definition is_iterable (v : JsVal) : bool :=
  match v with
  | VArr _ | VStr _ => true
  | _ => false
  end.

Section WithLibraries.

Context `{!ProllyUtils} `{!Charwise} `{!TreeLib} `{!ProofLib} `{!NameRegex} `{!Engine}
  `{!Listeners}.

(** The calls made to one listener, oldest first. *)
Definition calls_to (l : Listener) (db : Fireproof) : list (Listener * Changes) :=
  List.filter (fun d => Nat.eqb (fst d) l) (delivered db).



(** The document the validation hook is given as the old one: what [get]
    finds, or [{}]. *)
Definition old_doc (db : Fireproof) (id : string) : JsVal :=
  match Fireproof.get db id with
  | Ok d => d
  | Throw _ => VObj []
  end.

(** An engine that reads what it wrote: after a [put] that gives a
    result, [get] at the head of the result finds the value of the event
    under its key, and under every other key what it found before. *)
Definition reads_own_writes : Prop :=
  forall blocks clock event blocks' r,
    Prolly.put blocks clock event = (blocks', Some r) ->
    forall k, Prolly.get blocks' (head r) k
              = if String.eqb (pe_key event) k then pe_value event
                else Prolly.get blocks clock k.

(** The source text of the map function handed to the constructor. *)
Definition code_of (arg : MapFnArg) : string :=
  match arg with
  | Source code => code
  | Code _ code => code
  end.

(** A loop whose promises were handed out by [updateIndex]: the promise
    in flight and the settled ones are older than the next one. *)
Definition promises_handed_out (l : Loop) : Prop :=
  (forall p, updateIndexPromise (this (world l)) = Some p -> (p < next_promise l)%nat) /\
  (forall p, is_Some (settled l !! p) -> (p < next_promise l)%nat).

(** Every entry of the registry names an object of the heap that has the
    entry's source text. *)
Definition registry_ok (h : Heap) : Prop :=
  forall src r, indexes (heap_database h) !! src = Some r ->
    exists obj, objects h !! r = Some obj /\ mapFnString obj = src.

End WithLibraries.

End Conditions.

Module Cases.

Import Prolly Compare Fireproof DbIndex Standin LogEngine Callbacks Scenario Conditions.

(** A hook that refuses every delete. *)
Definition no_deletes : JsVal -> JsVal -> JsVal -> option JsError :=
  fun doc _ _ =>
    match prop doc "_deleted" with
    | VBool true => Some (Error "deletes are not allowed")
    | _ => None
    end.

(** An empty store with one listener and that hook, and the same after a
    document was put. *)
Definition hooked_store : Fireproof :=
  registerListener
    (new_Fireproof ([] : Log) [] (Some (mkConfig (Some no_deletes))) (VObj []) "abcde")
    7%nat.

Definition guarded_store : Fireproof := put_doc hooked_store "a" [("x", VNum (Fin 1))].

(** An empty store with one listener. *)
Definition listened_store : Fireproof := registerListener (storage "abcde") 7%nat.


(** An empty store with two listeners: the first one unregisters itself. *)
Definition one_shot_store : Fireproof :=
  registerListener (registerListener (storage "abcde") 21%nat) 7%nat.

(** The descriptor of the index of [store_ab], with a name. *)
Definition named_descriptor : IndexJson :=
  mkIndexJson (Some "byX") source_x (json_clock (toJSON (this indexed_ab))).

(** The first write of a tree: the entries of [sample_changes] into an
    index that has none. *)
Definition first_bulk : IndexBlocks * Result IndexRoot :=
  bulkIndex ∅ (mkIndexRoot None None) (indexEntriesForChanges sample_changes by_x) dbIndexOpts.

Definition written (r : Result IndexRoot) : IndexRoot :=
  match r with
  | Ok index => index
  | Throw _ => mkIndexRoot None None
  end.

(** The index of [store_y], its live map function attached, over a store
    that has a second document. *)
Definition live_yx : World :=
  world_of (this indexed_y)
    (put_doc store_y "b" [("x", VNum (Fin 2))]) (indexBlocks (database indexed_y)).

(** A new index over an empty store. *)
Definition empty_world : World := world_of (new_index (Some by_x)) (storage "abcde") ∅.

(** The event loop once a first caller started a pass. *)
Definition busy_loop : Loop := snd (updateIndex idle_loop).

End Cases.

(** * Properties *)

(** ** The insertion-ordered map and the most recent event *)

Section MapFacts.

Context {V : Type}.
Implicit Types (m : list (string * V)) (k : string) (v : V).

Lemma map_get_set k k' v m :
  map_get k (map_set k' v m) = if String.eqb k k' then Some v else map_get k m.
Proof.
  induction m as [|[k0 v0] m IH]; simpl.
  - reflexivity.
  - destruct (String.eqb_spec k' k0) as [->|Hne]; simpl.
    + destruct (String.eqb k k0); reflexivity.
    + rewrite IH. destruct (String.eqb_spec k k0) as [->|Hne'].
      * destruct (String.eqb_spec k0 k'); [congruence | reflexivity].
      * reflexivity.
Qed.

Lemma map_set_keys k0 k v m :
  In k0 (map fst (map_set k v m)) <-> k0 = k \/ In k0 (map fst m).
Proof.
  induction m as [|[k1 v1] m IH]; simpl.
  - intuition.
  - destruct (String.eqb_spec k k1) as [->|Hne]; simpl.
    + intuition.
    + rewrite IH. intuition.
Qed.

Lemma map_set_NoDup k v m : List.NoDup (map fst m) -> List.NoDup (map fst (map_set k v m)).
Proof.
  induction m as [|[k1 v1] m IH]; simpl; intros Hnd.
  - constructor; [intros Hin; destruct Hin | constructor].
  - apply List.NoDup_cons_iff in Hnd as [Hnotin Hnd].
    destruct (String.eqb_spec k k1) as [->|Hne]; simpl.
    + constructor; assumption.
    + constructor; [|auto].
      rewrite map_set_keys. intros [Heq|Hin]; [congruence | contradiction].
Qed.

Lemma map_get_delete k k' m :
  map_get k (map_delete k' m) = if String.eqb k k' then None else map_get k m.
Proof.
  unfold map_delete. induction m as [|[k0 v0] m IH]; simpl.
  - destruct (String.eqb k k'); reflexivity.
  - destruct (String.eqb_spec k' k0) as [->|Hne]; simpl.
    + rewrite IH. destruct (String.eqb k k0); reflexivity.
    + rewrite IH. destruct (String.eqb_spec k k0) as [->|Hne'].
      * destruct (String.eqb_spec k0 k'); [congruence | reflexivity].
      * reflexivity.
Qed.

Lemma map_delete_keys k0 k m :
  In k0 (map fst (map_delete k m)) -> In k0 (map fst m).
Proof.
  unfold map_delete. induction m as [|[k1 v1] m IH]; simpl; [tauto|].
  destruct (String.eqb k k1); simpl; intuition.
Qed.

Lemma map_delete_NoDup k m : List.NoDup (map fst m) -> List.NoDup (map fst (map_delete k m)).
Proof.
  induction m as [|[k1 v1] m IH]; simpl; intros Hnd.
  - constructor.
  - apply List.NoDup_cons_iff in Hnd as [Hnotin Hnd].
    unfold map_delete in *. simpl.
    destruct (String.eqb k k1); simpl; [auto|].
    constructor; [|auto].
    intros Hin. apply Hnotin. exact (map_delete_keys _ _ _ Hin).
Qed.

Lemma map_get_In k v m : List.NoDup (map fst m) -> (In (k, v) m <-> map_get k m = Some v).
Proof.
  induction m as [|[k1 v1] m IH]; simpl; intros Hnd.
  - split; [tauto | discriminate].
  - apply List.NoDup_cons_iff in Hnd as [Hnotin Hnd].
    destruct (String.eqb_spec k k1) as [->|Hne].
    + split.
      * intros [Heq|Hin]; [congruence|].
        exfalso. apply Hnotin. apply (in_map fst) in Hin. exact Hin.
      * intros Heq. left. congruence.
    + rewrite <- (IH Hnd). split; [|tauto].
      intros [Heq|Hin]; [congruence | assumption].
Qed.

Lemma map_get_keys k m : In k (map fst m) <-> exists v, map_get k m = Some v.
Proof.
  induction m as [|[k1 v1] m IH]; simpl.
  - split; [tauto | intros [v Hv]; discriminate].
  - destruct (String.eqb_spec k k1) as [->|Hne].
    + split; eauto.
    + rewrite IH. split; [|tauto]. intros [Heq|H]; [congruence | assumption].
Qed.

End MapFacts.

Section LatestFacts.

Import Prolly.

Lemma latest_app (l : list EventData) (e : EventData) (k : string) :
  latest (l ++ [e]) k = if String.eqb (ev_key e) k then Some e else latest l k.
Proof.
  induction l as [|e0 l IH]; simpl.
  - reflexivity.
  - rewrite IH. destruct (String.eqb (ev_key e) k); [reflexivity|].
    reflexivity.
Qed.

Lemma latest_key (l : list EventData) (k : string) (e : EventData) :
  latest l k = Some e -> ev_key e = k.
Proof.
  induction l as [|e0 l IH]; simpl; [discriminate|].
  destruct (latest l k) as [e'|].
  - intros Heq. apply IH. congruence.
  - destruct (String.eqb_spec (ev_key e0) k); congruence.
Qed.

Lemma latest_Some (l : list EventData) (k : string) :
  In k (map ev_key l) <-> exists e, latest l k = Some e.
Proof.
  induction l as [|e0 l IH]; simpl.
  - split; [tauto | intros [e He]; discriminate].
  - destruct (latest l k) as [e'|] eqn:Hl.
    + split; [eauto|]. intros _. right. apply IH. eauto.
    + destruct (String.eqb_spec (ev_key e0) k) as [Heq|Hne].
      * split; eauto.
      * split.
        -- intros [Heq|Hin]; [congruence|]. apply IH in Hin as [e He]. discriminate.
        -- intros [e He]. discriminate.
Qed.

End LatestFacts.

(** ** The document store *)

Section StoreFacts.

Import Prolly Fireproof Notions.

Context `{!Engine} `{!Listeners}.

Lemma collect_app (resp : list EventData) (e : EventData) :
  collect (resp ++ [e]) = map_set (ev_key e) (row_of_event e) (collect resp).
Proof. unfold collect. rewrite fold_left_app. reflexivity. Qed.

(** The map built from the engine's answer has one slot per key, holding
    the row of the last event of that key. *)
Lemma collect_latest (resp : list EventData) :
  List.NoDup (map fst (collect resp)) /\
  forall k, map_get k (collect resp) = option_map row_of_event (latest resp k).
Proof.
  induction resp as [|e resp [IHnd IHget]] using rev_ind.
  - split; [constructor | reflexivity].
  - rewrite collect_app. split.
    + apply map_set_NoDup. exact IHnd.
    + intros k. rewrite map_get_set, latest_app, IHget.
      rewrite (String.eqb_sym k (ev_key e)).
      destruct (String.eqb (ev_key e) k); reflexivity.
Qed.

Lemma row_of_event_key (e : EventData) : row_key (row_of_event e) = ev_key e.
Proof. unfold row_of_event. destruct (ev_type e); reflexivity. Qed.

Lemma collect_slot (resp : list EventData) (k : string) (r : Row) :
  In (k, r) (collect resp) <-> exists e, latest resp k = Some e /\ r = row_of_event e.
Proof.
  destruct (collect_latest resp) as [Hnd Hget].
  rewrite (map_get_In k r _ Hnd), Hget.
  destruct (latest resp k) as [e|]; simpl.
  - split.
    + intros Heq. exists e. split; congruence.
    + intros [e' [He' ->]]. congruence.
  - split; [discriminate | intros [e' [He' _]]; discriminate].
Qed.

Lemma collect_row_key (resp : list EventData) (k : string) (r : Row) :
  In (k, r) (collect resp) -> row_key r = k.
Proof.
  intros Hin. apply collect_slot in Hin as [e [He ->]].
  rewrite row_of_event_key. exact (latest_key _ _ _ He).
Qed.

Lemma collect_row_keys (resp : list EventData) :
  map row_key (map_values (collect resp)) = map fst (collect resp).
Proof.
  unfold map_values. rewrite map_map. apply map_ext_in.
  intros [k r] Hin. simpl. exact (collect_row_key _ _ _ Hin).
Qed.

(** The rows [changesSince] makes of the engine's answer: the row of an
    id is the row of the last of its events. *)
Lemma changesSince_rows (db : Fireproof) (prior : Clock) (r : Row) :
  In r (rows (changesSince db (Some prior))) <->
  exists e, latest (eventsSince (blocks db) (clock db) prior) (row_key r) = Some e /\
            r = row_of_event e.
Proof.
  unfold changesSince. simpl. unfold map_values. rewrite in_map_iff. split.
  - intros [[k r'] [Heq Hin]]. simpl in Heq. subst r'.
    pose proof (collect_row_key _ _ _ Hin) as Hk. subst k.
    apply collect_slot in Hin. exact Hin.
  - intros Hlast. exists (row_key r, r). split; [reflexivity|].
    apply collect_slot. exact Hlast.
Qed.

(** C3, amended. With a prior clock, [changesSince] answers at the store's
    clock with exactly one row for every id among the events the engine
    reports since that clock; the row of an id is made from the last of
    its events in the engine's answer: [{ key, del: true }] for an event
    of type del, [{ key, value }] otherwise.  The event [del] commits is a
    put of [null]: where it is the last event of its id, the row is the
    value row [{ key, value: null }], without the del flag. *)
Theorem changesSince_prior_clock (db : Fireproof) (prior : Clock) :
  let resp := eventsSince (blocks db) (clock db) prior in
  let result := changesSince db (Some prior) in
  changes_clock result = clock db /\
  List.NoDup (map row_key (rows result)) /\
  (forall k, In k (map row_key (rows result)) <-> In k (map ev_key resp)) /\
  (forall r, In r (rows result) <->
     exists e, latest resp (row_key r) = Some e /\
       r = match ev_type e with
           | TDel => mkRow (ev_key e) VUndefined true
           | TPut => mkRow (ev_key e) (ev_value e) false
           end) /\
  (forall k, latest resp k = Some (mkEventData k TPut VNull) ->
     In (mkRow k VNull false) (rows result) /\
     forall r, In r (rows result) -> row_key r = k -> row_del r = false).
Proof.
  intros resp result.
  assert (Hnull : forall k, latest resp k = Some (mkEventData k TPut VNull) ->
            In (mkRow k VNull false) (rows result) /\
            forall r, In r (rows result) -> row_key r = k -> row_del r = false).
  { intros k Hlast. split.
    - apply changesSince_rows. simpl. fold resp. eexists. split; [exact Hlast | reflexivity].
    - intros r Hin Hkey. apply changesSince_rows in Hin as [e [He ->]]. fold resp in He.
      rewrite Hkey, Hlast in He. injection He as <-. reflexivity. }
  revert Hnull. subst result. unfold changesSince. simpl. fold resp. intros Hnull.
  destruct (collect_latest resp) as [Hnd Hget].
  split; [reflexivity|]. split; [|split; [|split; [|exact Hnull]]].
  - rewrite collect_row_keys. exact Hnd.
  - intros k. rewrite collect_row_keys, map_get_keys, latest_Some.
    rewrite Hget. destruct (latest resp k) as [e|]; simpl.
    + split; intros _; eauto.
    + split; intros [x Hx]; discriminate.
  - intros r. unfold map_values. rewrite in_map_iff. split.
    + intros [[k r'] [Heq Hin]]. simpl in Heq. subst r'.
      pose proof (collect_row_key _ _ _ Hin) as Hk. subst k.
      apply collect_slot in Hin as [e [He Hr]]. exists e. split; [exact He|].
      rewrite Hr. reflexivity.
    + intros [e [He Hr]]. exists (row_key r, r). split; [reflexivity|].
      apply collect_slot. exists e. split; [exact He|].
      rewrite Hr. reflexivity.
Qed.

(** With no prior clock, [changesSince] makes one row of every entry of
    [getAll], in their order, and flags none: over an engine whose
    [getAll] lists the live documents, the rows are the live documents as
    [get] reads them. *)
Lemma snapshot_of_live_entries (db : Fireproof) :
  lists_live (blocks db) (clock db) ->
  let result := changesSince db None in
  changes_clock result = clock db /\
  List.NoDup (map row_key (rows result)) /\
  (forall k v, In (mkRow k v false) (rows result) <->
     Prolly.get (blocks db) (clock db) k = v /\ v <> VNull) /\
  (forall r, In r (rows result) -> row_del r = false) /\
  (forall k, In k (map row_key (rows result)) <-> get db k <> Throw (Error "Not found")) /\
  (forall r props, In r (rows result) -> row_value r = VObj props ->
     get db (row_key r) = Ok (VObj (set_prop "_id" (VStr (row_key r)) props))).
Proof.
  intros [Hnd Hlive] result. subst result. unfold changesSince. simpl.
  set (entries := getAll (blocks db) (clock db)) in *.
  assert (Hrow : forall k v, In (mkRow k v false)
                   (map (fun e => mkRow (en_key e) (en_value e) false) entries)
                 <-> In (mkEntry k v) entries).
  { intros k v. rewrite in_map_iff. split.
    - intros [[k' v'] [Heq Hin]]. simpl in Heq. injection Heq as -> ->. exact Hin.
    - intros Hin. exists (mkEntry k v). split; [reflexivity | exact Hin]. }
  assert (Hshape : forall r, In r (map (fun e => mkRow (en_key e) (en_value e) false) entries) ->
                   r = mkRow (row_key r) (row_value r) false).
  { intros r Hin. apply in_map_iff in Hin as [e [<- _]]. reflexivity. }
  split; [reflexivity|]. split; [|split; [|split; [|split]]].
  - rewrite map_map. simpl. exact Hnd.
  - intros k v. rewrite Hrow. apply Hlive.
  - intros r Hin. rewrite (Hshape r Hin). reflexivity.
  - intros k. rewrite map_map. simpl. rewrite in_map_iff. split.
    + intros [[k' v] [Heq Hin]]. simpl in Heq. subst k'.
      apply Hlive in Hin as [Hval Hne]. unfold get. rewrite Hval.
      destruct v; try contradiction; discriminate.
    + intros Hfound. exists (mkEntry k (Prolly.get (blocks db) (clock db) k)).
      split; [reflexivity|]. apply Hlive. split; [reflexivity|].
      intros Hnull. apply Hfound. unfold get. rewrite Hnull. reflexivity.
  - intros r props Hin Hobj. pose proof (Hshape r Hin) as Hr. rewrite Hr in Hin.
    apply Hrow, Hlive in Hin as [Hval _]. unfold get. rewrite Hval, Hobj. reflexivity.
Qed.

(** When the engine returns no result, [#putToProllyTree] throws, and the
    clock, the listeners and the record of their calls stay as they
    were. *)
Lemma putToProllyTree_no_result (db : Fireproof) (event : PutEvent) :
  snd (Prolly.put (blocks db) (clock db) event) = None ->
  snd (putToProllyTree db event) = Throw (Error "failed to put at storage layer") /\
  clock (fst (putToProllyTree db event)) = clock db /\
  delivered (fst (putToProllyTree db event)) = delivered db /\
  listeners (fst (putToProllyTree db event)) = listeners db.
Proof.
  unfold putToProllyTree.
  destruct (Prolly.put (blocks db) (clock db) event) as [blocks' result].
  simpl. intros ->. simpl. repeat split.
Qed.

(** C2. A [put] or a [del] whose validation passes and whose commit gets
    no result from the engine throws the storage error; the store's clock
    is the one before the call and no listener is called. *)
Theorem commit_failure_keeps_clock (db : Fireproof) :
  (forall _id doc rnd,
     let event := mkPutEvent (id_or_random _id rnd) (VObj doc) in
     runValidation db (pe_key event) (with_id (pe_key event) doc) = None ->
     snd (Prolly.put (blocks db) (clock db) event) = None ->
     snd (put db _id doc rnd) = Throw (Error "failed to put at storage layer") /\
     clock (fst (put db _id doc rnd)) = clock db /\
     delivered (fst (put db _id doc rnd)) = delivered db) /\
  (forall id,
     runValidation db id (VObj [("_id", VStr id); ("_deleted", VBool true)]) = None ->
     snd (Prolly.put (blocks db) (clock db) (mkPutEvent id VNull)) = None ->
     snd (del db id) = Throw (Error "failed to put at storage layer") /\
     clock (fst (del db id)) = clock db /\
     delivered (fst (del db id)) = delivered db).
Proof.
  split.
  - intros _id doc rnd event Hvalid Hput. unfold put. fold event.
    simpl in Hvalid. subst event. simpl. rewrite Hvalid.
    destruct (putToProllyTree_no_result db _ Hput) as (Hr & Hc & Hd & _).
    auto.
  - intros id Hvalid Hput. unfold del. rewrite Hvalid.
    destruct (putToProllyTree_no_result db _ Hput) as (Hr & Hc & Hd & _).
    auto.
Qed.

End StoreFacts.

(** ** The store over the linear log *)

Section LogFacts.

Import Prolly Fireproof LogEngine Callbacks Scenario Notions.

Lemma tree_latest (l : list EventData) :
  List.NoDup (map fst (fold_left apply_event l [])) /\
  forall k, map_get k (fold_left apply_event l []) = current_value l k.
Proof.
  induction l as [|e l [IHnd IHget]] using rev_ind.
  - split; [constructor | reflexivity].
  - rewrite fold_left_app. simpl. unfold apply_event at 1 3. unfold current_value.
    destruct (ev_type e) eqn:Htype; split.
    + apply map_set_NoDup. exact IHnd.
    + intros k. rewrite map_get_set, latest_app, (String.eqb_sym k (ev_key e)).
      destruct (String.eqb (ev_key e) k); [rewrite Htype; reflexivity | apply IHget].
    + apply map_delete_NoDup. exact IHnd.
    + intros k. rewrite map_get_delete, latest_app, (String.eqb_sym k (ev_key e)).
      destruct (String.eqb (ev_key e) k); [rewrite Htype; reflexivity | apply IHget].
Qed.

Lemma filter_keys_NoDup {V : Type} (f : string * V -> bool) (m : list (string * V)) :
  List.NoDup (map fst m) -> List.NoDup (map fst (List.filter f m)).
Proof.
  induction m as [|p m IH]; simpl; intros Hnd; [constructor|].
  apply List.NoDup_cons_iff in Hnd as [Hnotin Hnd].
  destruct (f p); simpl; [|auto].
  constructor; [|auto]. intros Hin. apply Hnotin.
  apply in_map_iff in Hin as [q [Hq Hin]]. apply filter_In in Hin as [Hin _].
  rewrite <- Hq. exact (in_map fst _ _ Hin).
Qed.

(** The log engine lists the live documents: its [getAll] and its [get]
    read the same tree. *)
Lemma log_lists_live (log : Log) (c : Clock) : lists_live log c.
Proof.
  unfold lists_live. simpl. unfold log_getAll, log_get, tree_at.
  set (seen := visible log c).
  destruct (tree_latest seen) as [Hnd Hget].
  split.
  - rewrite map_map. simpl. exact (filter_keys_NoDup _ _ Hnd).
  - intros k v. rewrite in_map_iff. split.
    + intros [[k' v'] [Heq Hin]]. simpl in Heq. injection Heq as -> ->.
      apply filter_In in Hin as [Hin Hlive]. simpl in Hlive.
      apply (map_get_In k v _ Hnd) in Hin. rewrite Hget in Hin. unfold current_value in Hin.
      destruct (latest seen k) as [e|]; [|discriminate].
      destruct (ev_type e); [|discriminate].
      injection Hin as ->. split; [reflexivity|]. intros ->. discriminate.
    + intros [Hval Hlive]. exists (k, v). split; [reflexivity|].
      apply filter_In. split.
      * apply (map_get_In k v _ Hnd). rewrite Hget. unfold current_value.
        destruct (latest seen k) as [e|]; [|congruence].
        destruct (ev_type e); congruence.
      * simpl. destruct v; congruence.
Qed.

(** C1. Over the log engine, [changesSince] with no prior clock answers
    at the store's clock with exactly one row for every live document,
    the row carrying the
    value the engine resolves for the id and no del flag; an id has a row
    exactly when [get] does not fail with Not found, so a deleted document
    has none, and a row whose value is an object carries the document
    [get] returns, but for its [_id]. *)
Theorem changesSince_snapshot (db : Fireproof) :
  let result := changesSince db None in
  changes_clock result = clock db /\
  List.NoDup (map row_key (rows result)) /\
  (forall k v, In (mkRow k v false) (rows result) <->
     Prolly.get (blocks db) (clock db) k = v /\ v <> VNull) /\
  (forall r, In r (rows result) -> row_del r = false) /\
  (forall k, In k (map row_key (rows result)) <-> get db k <> Throw (Error "Not found")) /\
  (forall r props, In r (rows result) -> row_value r = VObj props ->
     get db (row_key r) = Ok (VObj (set_prop "_id" (VStr (row_key r)) props))).
Proof.
  intros result. subst result.
  pose proof (log_lists_live (blocks db) (clock db)) as Hlive.
  exact (snapshot_of_live_entries db Hlive).
Qed.

(** C3, as stated, fails: [a] was put and deleted; since the clock of the
    put, the row of [a] is the value row of [null], and [get] does not
    find [a]. *)
Lemma deleted_document_row_not_flagged : ~ tombstones_flagged deleted_store [0%nat].
Proof.
  intros Hclaim.
  assert (Hin : In (mkRow "a" VNull false) (rows (changesSince deleted_store (Some [0%nat]))))
    by (left; reflexivity).
  specialize (Hclaim _ Hin eq_refl). discriminate Hclaim.
Qed.

End LogFacts.

Section SnapshotFacts.

Import Prolly Fireproof LogEngine Callbacks Scenario Notions.

Lemma visible_frontier (log : Log) (e : EventData) :
  visible (log ++ [e]) [length log] = log ++ [e].
Proof.
  unfold visible, horizon. simpl. rewrite Nat.max_0_r.
  apply firstn_all2. rewrite length_app. simpl. lia.
Qed.

(** The snapshot of the store where [a] was deleted and [b] was put. *)
Lemma changesSince_snapshot_witness :
  get deleted_a_live_b "a" = Throw (Error "Not found") /\
  ~ In "a" (map row_key (rows (changesSince deleted_a_live_b None))) /\
  In (mkRow "b" (VObj [("x", VNum (Fin 2))]) false) (rows (changesSince deleted_a_live_b None)) /\
  get deleted_a_live_b "b" = Ok (VObj [("x", VNum (Fin 2)); ("_id", VStr "b")]).
Proof.
  destruct (changesSince_snapshot deleted_a_live_b) as (_ & _ & Hrows & _ & Hkeys & Hget).
  split; [reflexivity|]. split; [|split].
  - intros Hin. apply Hkeys in Hin. apply Hin. reflexivity.
  - apply Hrows. split; [reflexivity | discriminate].
  - assert (Hin : In (mkRow "b" (VObj [("x", VNum (Fin 2))]) false)
                    (rows (changesSince deleted_a_live_b None)))
      by (apply Hrows; split; [reflexivity | discriminate]).
    exact (Hget _ _ Hin eq_refl).
Defined.

End SnapshotFacts.

Section CommitFailure.

Import Prolly Fireproof LogEngine Callbacks Scenario.

Lemma commit_failure_keeps_clock_witness :
  (snd (put stale_store (Some "a") [("x", VNum (Fin 1))] "r1")
     = Throw (Error "failed to put at storage layer") /\
   clock (fst (put stale_store (Some "a") [("x", VNum (Fin 1))] "r1")) = clock stale_store /\
   delivered (fst (put stale_store (Some "a") [("x", VNum (Fin 1))] "r1"))
     = delivered stale_store) /\
  (snd (del stale_store "a") = Throw (Error "failed to put at storage layer") /\
   clock (fst (del stale_store "a")) = clock stale_store /\
   delivered (fst (del stale_store "a")) = delivered stale_store).
Proof.
  destruct (commit_failure_keeps_clock stale_store) as [Hput Hdel].
  split.
  - apply (Hput (Some "a") [("x", VNum (Fin 1))] "r1"); reflexivity.
  - apply (Hdel "a"); reflexivity.
Defined.

End CommitFailure.

(** ** Composite keys *)

Section CompareFacts.

Import Compare.

Context `{!ProllyUtils}.

Lemma compare_tie (aKey aRef bKey bRef : JsVal) :
  simpleCompare aKey bKey = 0 ->
  compare (VArr [aKey; aRef]) (VArr [bKey; bRef]) = refCompare aRef bRef.
Proof. intros Htie. unfold compare. simpl. rewrite Htie. reflexivity. Qed.

Lemma compare_primary (aKey aRef bKey bRef : JsVal) :
  simpleCompare aKey bKey <> 0 ->
  compare (VArr [aKey; aRef]) (VArr [bKey; bRef]) = Ok (simpleCompare aKey bKey).
Proof.
  intros Hne. unfold compare. simpl.
  destruct (Z.eqb_spec (simpleCompare aKey bKey) 0); [contradiction | reflexivity].
Qed.

(** C7. On numeric references: a left reference NaN gives -1 whatever
    the right one is; a left reference that is not NaN against a right
    reference NaN throws; the left reference [Infinity] against a finite
    right reference gives 1.  Two composite keys whose primary keys tie
    are compared by their references in this way. *)
Theorem compare_numeric_refs (a b : JsNum) :
  (a = NaN -> refCompare (VNum a) (VNum b) = Ok (-1)) /\
  (a <> NaN -> b = NaN ->
     refCompare (VNum a) (VNum b) = Throw (Error "ref may not be Infinity or NaN")) /\
  (a = PosInfinity -> (exists q, b = Fin q) -> refCompare (VNum a) (VNum b) = Ok 1) /\
  (forall aKey bKey, simpleCompare aKey bKey = 0 ->
     compare (VArr [aKey; VNum a]) (VArr [bKey; VNum b]) = refCompare (VNum a) (VNum b)).
Proof.
  split; [|split; [|split]].
  - intros ->. reflexivity.
  - intros Ha ->. unfold refCompare. destruct a; try reflexivity. contradiction.
  - intros -> [q ->]. reflexivity.
  - intros aKey bKey Htie. exact (compare_tie _ _ _ _ Htie).
Qed.

(** The guard of [refCompare] names [Infinity] alone: the reference
    [-Infinity] is left to [simpleCompare]. *)
Lemma refCompare_negative_infinity (b : JsNum) :
  b <> NaN ->
  refCompare (VNum NegInfinity) (VNum b) = Ok (simpleCompare (VNum NegInfinity) (VNum b)).
Proof. intros Hb. unfold refCompare. destruct b; try reflexivity. contradiction. Qed.

End CompareFacts.

Section CompareWitness.

Import Compare Standin.

Lemma compare_numeric_refs_witness :
  compare (VArr [VStr "k"; VNum NaN]) (VArr [VStr "k"; VNum NaN]) = Ok (-1) /\
  compare (VArr [VStr "k"; VNum (Fin 3)]) (VArr [VStr "k"; VNum NaN])
    = Throw (Error "ref may not be Infinity or NaN") /\
  compare (VArr [VStr "k"; VNum PosInfinity]) (VArr [VStr "k"; VNum (Fin 3)]) = Ok 1.
Proof.
  assert (Htie : simpleCompare (VStr "k") (VStr "k") = 0) by reflexivity.
  split; [|split].
  - destruct (compare_numeric_refs NaN NaN) as (Hnan & _ & _ & Hcompare).
    rewrite (Hcompare _ _ Htie). exact (Hnan eq_refl).
  - destruct (compare_numeric_refs (Fin 3) NaN) as (_ & Hthrow & _ & Hcompare).
    rewrite (Hcompare _ _ Htie). apply Hthrow; [discriminate | reflexivity].
  - destruct (compare_numeric_refs PosInfinity (Fin 3)) as (_ & _ & Hinf & Hcompare).
    rewrite (Hcompare _ _ Htie). apply Hinf; [reflexivity | exists 3%Q; reflexivity].
Defined.

End CompareWitness.

(** ** Index entries *)

Section EntryFacts.

Import Prolly Compare Fireproof DbIndex Notions.

Context `{!ProllyUtils} `{!Charwise} `{!TreeLib} `{!ProofLib} `{!NameRegex} `{!Engine}.

Lemma emit_entry_of (key : string) (indexEntries : list IndexEntry) (kv : JsVal * JsVal) :
  emit key indexEntries kv = indexEntries ++ entry_of key kv.
Proof.
  unfold emit, entry_of. destruct kv as [k v]. simpl.
  destruct (typeof_undefined v || typeof_undefined k).
  - rewrite app_nil_r. reflexivity.
  - reflexivity.
Qed.

Lemma fold_emit (key : string) (emissions : list (JsVal * JsVal)) :
  forall indexEntries,
    fold_left (emit key) emissions indexEntries
    = indexEntries ++ flat_map (entry_of key) emissions.
Proof.
  induction emissions as [|kv emissions IH]; intros indexEntries; simpl.
  - rewrite app_nil_r. reflexivity.
  - rewrite IH, emit_entry_of, <- app_assoc. reflexivity.
Qed.

Lemma fold_forEach_change (mapFn : MapFn) (changes : list Row) :
  forall acc,
    fold_left (forEach_change mapFn) changes acc
    = (fst acc ++ flat_map (fun change =>
                    flat_map (entry_of (row_key change))
                      (mapFn (makeDoc (row_key change) (row_value change))))
                  (kept changes),
       snd acc ++ map (fun change => makeDoc (row_key change) (row_value change))
                    (kept changes)).
Proof.
  induction changes as [|change changes IH]; intros [entries calls]; simpl.
  - rewrite !app_nil_r. reflexivity.
  - rewrite IH. unfold forEach_change, kept. simpl.
    destruct (skips change); simpl.
    + reflexivity.
    + rewrite fold_emit, <- !app_assoc. reflexivity.
Qed.

(** C10. The entries of [indexEntriesForChanges] are those of the
    emissions whose key and value are both defined, made on the changes
    that are kept; the map function is called on the kept changes only,
    once each, and a change marked deleted or whose value is [null] or
    [undefined] is not kept. *)
Theorem indexEntriesForChanges_drops (changes : list Row) (mapFn : MapFn) :
  indexEntriesForChanges changes mapFn
    = flat_map (fun change =>
        flat_map (entry_of (row_key change))
          (mapFn (makeDoc (row_key change) (row_value change))))
        (kept changes) /\
  mapFn_calls changes mapFn
    = map (fun change => makeDoc (row_key change) (row_value change)) (kept changes) /\
  (forall key k v, typeof_undefined k = true \/ typeof_undefined v = true ->
                   entry_of key (k, v) = []) /\
  (forall change, In change (kept changes) ->
     row_del change = false /\ row_value change <> VNull /\ row_value change <> VUndefined).
Proof.
  unfold indexEntriesForChanges, mapFn_calls, run_indexEntriesForChanges.
  rewrite fold_forEach_change. simpl.
  split; [reflexivity|]. split; [reflexivity|]. split.
  - intros key k v [Hk|Hv]; unfold entry_of; simpl.
    + rewrite Hk, orb_true_r. reflexivity.
    + rewrite Hv. reflexivity.
  - intros change Hin. apply filter_In in Hin as [_ Hkept].
    unfold skips in Hkept. destruct (row_del change); [discriminate|].
    simpl in Hkept. split; [reflexivity|].
    split; intros Hval; rewrite Hval in Hkept; discriminate.
Qed.

End EntryFacts.

Section EntryWitness.

Import Prolly Compare Fireproof DbIndex Standin LogEngine Callbacks Scenario Notions.

Lemma indexEntriesForChanges_drops_witness :
  indexEntriesForChanges sample_changes by_x
    = [mkIndexEntry (VArr [VStr "F1"; VStr "a"]) (VStr "a") false] /\
  mapFn_calls sample_changes by_x = [VObj [("_id", VStr "a"); ("x", VNum (Fin 1))]] /\
  entry_of "a" (VUndefined, VNum (Fin 1)) = [] /\
  row_value (mkRow "a" (VObj [("x", VNum (Fin 1))]) false) <> VNull.
Proof.
  destruct (indexEntriesForChanges_drops sample_changes by_x) as (He & Hc & Hu & Hk).
  split; [rewrite He; reflexivity|].
  split; [rewrite Hc; reflexivity|].
  split; [apply Hu; left; reflexivity|].
  apply (Hk (mkRow "a" (VObj [("x", VNum (Fin 1))]) false)).
  left. reflexivity.
Defined.

End EntryWitness.

(** ** Queries *)

Section QueryFacts.

Import Prolly Compare Fireproof DbIndex Notions.

Context `{!ProllyUtils} `{!Charwise} `{!TreeLib} `{!ProofLib} `{!NameRegex} `{!Engine}.

Lemma slice0_nil {A : Type} (limit : option Z) : slice0 ([] : list A) limit = [].
Proof.
  destruct limit as [n|]; simpl; [|reflexivity].
  destruct (0 <=? n)%Z; [destruct (Z.to_nat n) | ]; reflexivity.
Qed.

(** A limit that is a count keeps the first rows. *)
Lemma slice0_count {A : Type} (l : list A) (n : nat) :
  slice0 l (Some (Z.of_nat n)) = firstn n l.
Proof.
  unfold slice0. destruct (Z.leb_spec 0 (Z.of_nat n)); [|lia].
  rewrite Nat2Z.id. reflexivity.
Qed.

(** A range query and a scan cut the rows they retrieved down to the
    limit. *)
Lemma doIndexQuery_limit (blocks : IndexBlocks) (index : IndexRoot) (q : Query) :
  q_range q <> None \/ truthy (q_key q) = false ->
  doIndexQuery blocks index q
  = (fst (doIndexQuery blocks index (without_limit q)),
     limited (snd (doIndexQuery blocks index (without_limit q))) (q_limit q)).
Proof.
  intros Hkind. unfold doIndexQuery, without_limit. simpl.
  destruct (root (loadIndex blocks index dbIndexOpts)) as [node|].
  - destruct (q_range q) as [bounds|].
    + destruct (range node _) as [rows c]. reflexivity.
    + destruct Hkind as [Hrange|Hkey]; [contradiction|]. rewrite Hkey.
      destruct (getAllEntries node) as [entries c]. simpl.
      destruct (mapM _ entries); reflexivity.
  - simpl. unfold applyLimit. simpl. rewrite slice0_nil. reflexivity.
Qed.

(** A key query returns what the tree's [get] answers: the limit is not
    read. *)
Lemma doIndexQuery_key (blocks : IndexBlocks) (index : IndexRoot) (q : Query) :
  q_range q = None -> truthy (q_key q) = true ->
  doIndexQuery blocks index q = doIndexQuery blocks index (without_limit q).
Proof.
  intros Hrange Hkey. unfold doIndexQuery, without_limit. simpl.
  rewrite Hrange, Hkey. reflexivity.
Qed.

End QueryFacts.

(** ** Updating an index *)

Section UpdateFacts.

Import Prolly Compare Fireproof DbIndex.

Context `{!ProllyUtils} `{!Charwise} `{!TreeLib} `{!ProofLib} `{!NameRegex} `{!Engine}.

Lemma changesSince_clock (db : Fireproof) (event : option Clock) :
  changes_clock (changesSince db event) = clock db.
Proof. destruct event; reflexivity. Qed.

Lemma set_dbHead_same (this0 : DbIndex) : set_dbHead this0 (dbHead this0) = this0.
Proof. destruct this0. reflexivity. Qed.

Lemma set_indexBlocks_same (d : Database) : set_indexBlocks d (indexBlocks d) = d.
Proof. destruct d. reflexivity. Qed.

Lemma loadIndex_cid (blocks : IndexBlocks) (index : IndexRoot) (opts : TreeOpts) :
  cid (loadIndex blocks index opts) = cid index.
Proof.
  unfold loadIndex. destruct (root index); [reflexivity|].
  destruct (cid index) eqn:Hcid; [reflexivity | exact Hcid].
Qed.

(** Loading does not change the tree an index stands for: a root that is
    there stays, and an absent one is read from the blocks by its [cid]. *)
Lemma loadIndex_again (blocks : IndexBlocks) (index : IndexRoot) (opts : TreeOpts) :
  loadIndex blocks (loadIndex blocks index opts) opts = loadIndex blocks index opts.
Proof.
  unfold loadIndex. destruct (root index) eqn:Hroot.
  - rewrite Hroot. reflexivity.
  - destruct (cid index) eqn:Hcid; simpl; [reflexivity|].
    rewrite Hroot, Hcid. reflexivity.
Qed.

Lemma loaded_fields (blocks : IndexBlocks) (this0 : DbIndex) :
  dbHead (loaded blocks this0) = dbHead this0 /\
  mapFn (loaded blocks this0) = mapFn this0 /\
  mapFnString (loaded blocks this0) = mapFnString this0 /\
  cid (indexById (loaded blocks this0)) = cid (indexById this0) /\
  cid (indexByKey (loaded blocks this0)) = cid (indexByKey this0) /\
  indexById (loaded blocks this0) = loadIndex blocks (indexById this0) idIndexOpts /\
  indexByKey (loaded blocks this0) = loadIndex blocks (indexByKey this0) dbIndexOpts.
Proof.
  unfold loaded. simpl. rewrite !loadIndex_cid. repeat split.
Qed.

(** A transaction that completes has set [dbHead] to the clock of the
    changes. *)
Lemma updateIndex_transaction_ok (result : ChangesResult) (blocks blocks' : IndexBlocks)
    (this0 this' : DbIndex) (u : unit) :
  updateIndex_transaction result blocks this0 = (this', blocks', Ok u) ->
  dbHead this' = Some (changes_clock result).
Proof.
  unfold updateIndex_transaction.
  destruct (old_entries _ _) as [[oldIndexEntries removeByIdIndexEntries]|e]; [|discriminate].
  destruct (mapFn (loaded blocks this0)) as [fn|]; [|discriminate].
  destruct (mapM _ _) as [byIdIndexEntries|e]; [|discriminate].
  destruct (bulkIndex blocks _ _ _) as [blocks1 [byId'|e]]; [|discriminate].
  destruct (bulkIndex blocks1 _ _ _) as [blocks2 [byKey'|e]]; [|discriminate].
  intros Heq. injection Heq as <- _ _. reflexivity.
Qed.

(** An update that completes leaves [dbHead] at the clock of the store,
    and does not touch the store. *)
Lemma innerUpdateIndex_ok (w w1 : World) :
  innerUpdateIndex w = (w1, Ok tt) ->
  dbHead (this w1) = Some (clock (store (database w))) /\
  store (database w1) = store (database w).
Proof.
  unfold innerUpdateIndex. unfold rebuild. simpl.
  pose proof (changesSince_clock (store (database w)) (dbHead (this w))) as Hclock.
  destruct (rows (changesSince (store (database w)) (dbHead (this w)))) as [|row more].
  - intros Heq. injection Heq as <-. simpl. rewrite Hclock. split; reflexivity.
  - unfold doTransaction.
    destruct (updateIndex_transaction _ _ _) as [[this1 inner] [u|e]] eqn:Htx.
    + intros Heq. injection Heq as <-. simpl.
      rewrite (updateIndex_transaction_ok _ _ _ _ _ _ Htx), Hclock. split; reflexivity.
    + discriminate.
Qed.

(** With no change to report, the update records the clock and returns. *)
Lemma innerUpdateIndex_no_changes (w : World) :
  rows (changesSince (store (database w)) (dbHead (this w))) = [] ->
  innerUpdateIndex w
  = (mkWorld (set_dbHead (this w) (Some (clock (store (database w))))) (database w), Ok tt).
Proof.
  intros Hrows. unfold innerUpdateIndex, rebuild. simpl.
  rewrite Hrows, changesSince_clock. reflexivity.
Qed.

(** After an update that completed, with no event between the store's
    clock and itself, the next update changes nothing. *)
Lemma innerUpdateIndex_again (w w1 : World) :
  innerUpdateIndex w = (w1, Ok tt) ->
  eventsSince (blocks (store (database w1))) (clock (store (database w1)))
    (clock (store (database w1))) = [] ->
  innerUpdateIndex w1 = (w1, Ok tt).
Proof.
  intros Hfirst Hdiff.
  destruct (innerUpdateIndex_ok _ _ Hfirst) as [Hhead Hstore].
  rewrite innerUpdateIndex_no_changes.
  - rewrite Hstore, <- Hhead, set_dbHead_same. destruct w1. reflexivity.
  - rewrite Hhead, <- Hstore. unfold changesSince. simpl. rewrite Hdiff. reflexivity.
Qed.

(** C4. When an update has completed and the engine reports no event
    between the store's clock and itself, a second update changes nothing:
    both trees of the index, [dbHead] and the database are as the first
    left them.  And whenever [changesSince] reports no change, the update
    sets [dbHead] to the store's clock and returns, the trees and the
    database untouched. *)
Theorem innerUpdateIndex_twice (w : World) :
  (forall w1,
     innerUpdateIndex w = (w1, Ok tt) ->
     eventsSince (blocks (store (database w1))) (clock (store (database w1)))
       (clock (store (database w1))) = [] ->
     innerUpdateIndex w1 = (w1, Ok tt)) /\
  (rows (changesSince (store (database w)) (dbHead (this w))) = [] ->
     snd (innerUpdateIndex w) = Ok tt /\
     dbHead (this (fst (innerUpdateIndex w))) = Some (clock (store (database w))) /\
     indexById (this (fst (innerUpdateIndex w))) = indexById (this w) /\
     indexByKey (this (fst (innerUpdateIndex w))) = indexByKey (this w) /\
     database (fst (innerUpdateIndex w)) = database w).
Proof.
  split.
  - intros w1 Hfirst Hdiff. exact (innerUpdateIndex_again w w1 Hfirst Hdiff).
  - intros Hrows. rewrite (innerUpdateIndex_no_changes _ Hrows). simpl.
    repeat split.
Qed.

End UpdateFacts.

Section MissingMapFunction.

Import Prolly Compare Fireproof DbIndex.

Context `{!ProllyUtils} `{!Charwise} `{!TreeLib} `{!ProofLib} `{!NameRegex} `{!Engine}.

(** With changes pending and no live map function, the update throws.  It
    leaves the index with its two trees loaded, so with the same [cid]s
    and the same [dbHead], and the database as it was.  The exception is
    the one about the missing map function unless reading the old entries
    of the id index has thrown before. *)
Lemma innerUpdateIndex_no_mapFn (w : World) :
  rows (changesSince (store (database w)) (dbHead (this w))) <> [] ->
  mapFn (this w) = None ->
  innerUpdateIndex w
  = (mkWorld (loaded (indexBlocks (database w)) (this w)) (database w),
     Throw match old_entries (loaded (indexBlocks (database w)) (this w))
                   (rows (changesSince (store (database w)) (dbHead (this w)))) with
           | Throw e => e
           | Ok _ => missing_map_function (mapFnString (this w))
           end).
Proof.
  intros Hrows Hfn. unfold innerUpdateIndex, rebuild. simpl.
  destruct (rows (changesSince (store (database w)) (dbHead (this w)))) as [|row more] eqn:Hr;
    [contradiction|].
  unfold doTransaction, updateIndex_transaction. rewrite Hr.
  destruct (loaded_fields (indexBlocks (database w)) (this w)) as (_ & Hfn' & Hsrc & _).
  destruct (old_entries _ _) as [[oldIndexEntries removeByIdIndexEntries]|e].
  - rewrite Hfn', Hfn, Hsrc, set_indexBlocks_same. reflexivity.
  - rewrite set_indexBlocks_same. reflexivity.
Qed.

(** On a first build, [dbHead] being [null], the id index is not read:
    the exception is [missing_map_function], which carries the stored
    source text when there is one. *)
Lemma innerUpdateIndex_first_build_no_mapFn (w : World) :
  rows (changesSince (store (database w)) (dbHead (this w))) <> [] ->
  mapFn (this w) = None ->
  dbHead (this w) = None ->
  snd (innerUpdateIndex w) = Throw (missing_map_function (mapFnString (this w))).
Proof.
  intros Hrows Hfn Hhead. rewrite (innerUpdateIndex_no_mapFn _ Hrows Hfn). simpl.
  unfold old_entries.
  destruct (loaded_fields (indexBlocks (database w)) (this w)) as (Hh & _).
  rewrite Hh, Hhead. reflexivity.
Qed.

(** With a prior [dbHead] and an id index that has neither root nor
    [cid], reading the old entries dereferences [null]. *)
Lemma innerUpdateIndex_null_root (w : World) :
  rows (changesSince (store (database w)) (dbHead (this w))) <> [] ->
  mapFn (this w) = None ->
  dbHead (this w) <> None ->
  indexById (this w) = mkIndexRoot None None ->
  snd (innerUpdateIndex w)
  = Throw (TypeError "Cannot read properties of null (reading 'getMany')").
Proof.
  intros Hrows Hfn Hhead Hid. rewrite (innerUpdateIndex_no_mapFn _ Hrows Hfn). simpl.
  unfold old_entries.
  destruct (loaded_fields (indexBlocks (database w)) (this w)) as (Hh & _ & _ & _ & _ & Hbyid & _).
  rewrite Hh, Hbyid, Hid.
  destruct (dbHead (this w)); [reflexivity | contradiction].
Qed.

(** What the update throws, [query] with [update] set throws. *)
Lemma query_surfaces (w : World) (q : Query) (e : JsError) :
  snd (innerUpdateIndex w) = Throw e -> snd (query w q true) = Throw e.
Proof.
  unfold query, await_updateIndex.
  destruct (innerUpdateIndex w) as [w1 r]. simpl. intros ->. reflexivity.
Qed.

End MissingMapFunction.

(** ** Updating an index over the linear log *)

Section LogUpdateFacts.

Import Prolly Compare Fireproof DbIndex LogEngine Callbacks.

Context `{!ProllyUtils} `{!Charwise} `{!TreeLib} `{!ProofLib} `{!NameRegex}.

(** The log engine reports no event between a clock and itself. *)
Lemma log_eventsSince_self (log : Log) (c : Clock) : log_eventsSince log c c = [].
Proof.
  unfold log_eventsSince, visible. apply skipn_all2. apply firstn_le_length.
Qed.

(** Over the log engine, an update that completed is followed by one that
    changes nothing. *)
Lemma innerUpdateIndex_again_log (w w1 : World) :
  innerUpdateIndex w = (w1, Ok tt) -> innerUpdateIndex w1 = (w1, Ok tt).
Proof.
  intros Hfirst. apply (innerUpdateIndex_again w w1 Hfirst).
  apply log_eventsSince_self.
Qed.

(** The reference given to a new object is not in use. *)
Lemma fresh_ref_unused (objs : gmap Ref DbIndex) : objs !! fresh_ref objs = None.
Proof.
  destruct (objs !! fresh_ref objs) as [obj|] eqn:Hlookup; [|reflexivity].
  exfalso. apply elem_of_map_to_list in Hlookup.
  apply list_elem_of_In in Hlookup. apply (in_map fst) in Hlookup. simpl in Hlookup.
  assert (Hle : Forall (fun k => (k <= list_max (map fst (map_to_list objs)))%nat)
                  (map fst (map_to_list objs))).
  { apply list_max_le. lia. }
  rewrite Forall_forall in Hle.
  apply list_elem_of_In in Hlookup. apply Hle in Hlookup.
  unfold fresh_ref in Hlookup. lia.
Qed.

End LogUpdateFacts.

Section UpdateScenarios.

Import Prolly Compare Fireproof DbIndex Standin LogEngine Callbacks Scenario.

Lemma innerUpdateIndex_twice_witness :
  innerUpdateIndex indexed_ab = (indexed_ab, Ok tt) /\
  dbHead (this (fst (innerUpdateIndex indexed_ab))) = Some (clock store_ab).
Proof.
  destruct (innerUpdateIndex_twice world_ab) as [Htwice _].
  destruct (innerUpdateIndex_twice indexed_ab) as [_ Hnone].
  split.
  - apply Htwice.
    + unfold indexed_ab. rewrite (surjective_pairing (innerUpdateIndex world_ab)) at 1.
      apply f_equal. reflexivity.
    + reflexivity.
  - apply Hnone. reflexivity.
Defined.

(** C5, where the code departs from it.  The index of [store_y] is read
    back from its descriptor with no live map function, its source text
    stored, and a change is pending: the update and [query] throw the
    TypeError of a [null] root, not the exception that carries the source
    text. *)
Example rehydrated_index_reads_null_root :
  rows (changesSince (store (database rehydrated_yx)) (dbHead (this rehydrated_yx))) <> [] /\
  mapFn (this rehydrated_yx) = None /\
  mapFnString (this rehydrated_yx) = source_x /\
  snd (innerUpdateIndex rehydrated_yx)
    = Throw (TypeError "Cannot read properties of null (reading 'getMany')") /\
  snd (query rehydrated_yx (mkQuery None VUndefined None) true)
    = Throw (TypeError "Cannot read properties of null (reading 'getMany')").
Proof.
  split; [vm_compute; discriminate|].
  split; [reflexivity|].
  split; [reflexivity|].
  split; reflexivity.
Qed.

(** The index of [store_ab], whose first update wrote its trees, read
    back the same way: the exception is the one about the missing map
    function, with the source text, and the descriptor is unchanged. *)
Example rehydrated_index_missing_map_function :
  snd (innerUpdateIndex rehydrated_abc) = Throw (missing_map_function source_x) /\
  snd (query rehydrated_abc (mkQuery None VUndefined None) true)
    = Throw (missing_map_function source_x) /\
  toJSON (this (fst (innerUpdateIndex rehydrated_abc))) = toJSON (this rehydrated_abc).
Proof. repeat split; reflexivity. Qed.

(** The scenario of the specification, end to end. *)
Example query_after_put_and_delete :
  rows_of_query (snd first_query)
    = [mkQueryRow (VStr "a") (VNum (Fin 1)) (VStr "a");
       mkQueryRow (VStr "b") (VNum (Fin 2)) (VStr "b")] /\
  rows_of_query (snd second_query)
    = [mkQueryRow (VStr "b") (VNum (Fin 2)) (VStr "b")].
Proof. split; reflexivity. Qed.

(** C8, where the code departs from it.  Two entries have the key 1; the
    key query with the limit 1 returns both, the scan with the limit 1
    returns one. *)
Example key_query_ignores_limit :
  let blocks := indexBlocks (database indexed_ab) in
  let index := indexByKey (this indexed_ab) in
  let rows_of (r : Result Response) :=
    match r with Ok response => result response | Throw _ => [] end in
  rows_of (snd (doIndexQuery blocks index (mkQuery None (VNum (Fin 1)) (Some 1))))
    = [mkResultRow (VStr "a") (VStr "F1") (VStr "a");
       mkResultRow (VStr "b") (VStr "F1") (VStr "b")] /\
  rows_of (snd (doIndexQuery blocks index (mkQuery None (VNum (Fin 1)) None)))
    = [mkResultRow (VStr "a") (VStr "F1") (VStr "a");
       mkResultRow (VStr "b") (VStr "F1") (VStr "b")] /\
  rows_of (snd (doIndexQuery blocks index (mkQuery None VUndefined (Some 1))))
    = [mkResultRow (VStr "a") (VStr "F1") (VStr "a")].
Proof. repeat split; reflexivity. Qed.

End UpdateScenarios.

(** ** The registry *)

Section RegistryFacts.

Import Prolly Compare Fireproof DbIndex.

Context `{!ProllyUtils} `{!Charwise} `{!TreeLib} `{!ProofLib} `{!NameRegex} `{!Engine}.

(** What [absorb] takes from the other instance and what it keeps. *)
Lemma absorb_fields (to from : DbIndex) :
  dbHead (absorb to from) = dbHead from /\
  cid (indexById (absorb to from)) = cid (indexById from) /\
  cid (indexByKey (absorb to from)) = cid (indexByKey from) /\
  mapFn (absorb to from) = mapFn to /\
  mapFnString (absorb to from) = mapFnString to /\
  root (indexById (absorb to from)) = root (indexById to) /\
  root (indexByKey (absorb to from)) = root (indexByKey to).
Proof. unfold absorb. simpl. repeat split. Qed.

(** C6. An index is registered under a source text the registry already
    holds for another instance.  The winner is the registered instance
    when it has a live map function and the new one otherwise, so it has a
    live map function whenever one of the two has; the winner takes the
    loser's [dbHead] and the [cid]s of its two trees and keeps its own map
    function; the registry names the winner, and the loser is left as it
    was. *)
Theorem registerWithDatabase_same_source (h : Heap) (inIndex existing : Ref)
    (inObj exObj : DbIndex) :
  objects h !! inIndex = Some inObj ->
  indexes (heap_database h) !! mapFnString inObj = Some existing ->
  objects h !! existing = Some exObj ->
  existing <> inIndex ->
  let h' := registerWithDatabase inIndex h in
  let winner := match mapFn exObj with Some _ => existing | None => inIndex end in
  let loser := match mapFn exObj with Some _ => inIndex | None => existing end in
  let winObj := match mapFn exObj with Some _ => exObj | None => inObj end in
  let loseObj := match mapFn exObj with Some _ => inObj | None => exObj end in
  indexes (heap_database h') !! mapFnString inObj = Some winner /\
  objects h' !! winner = Some (absorb winObj loseObj) /\
  objects h' !! loser = Some loseObj /\
  (is_Some (mapFn exObj) \/ is_Some (mapFn inObj) -> is_Some (mapFn (absorb winObj loseObj))) /\
  mapFn (absorb winObj loseObj) = mapFn winObj /\
  dbHead (absorb winObj loseObj) = dbHead loseObj /\
  cid (indexById (absorb winObj loseObj)) = cid (indexById loseObj) /\
  cid (indexByKey (absorb winObj loseObj)) = cid (indexByKey loseObj).
Proof.
  intros Hin Hreg Hex Hne. cbv zeta.
  unfold registerWithDatabase. rewrite Hin, Hreg, Hex.
  destruct (mapFn exObj) as [fn|] eqn:Hfn; simpl.
  - split; [exact Hreg|].
    split; [apply lookup_insert_eq|].
    split; [rewrite lookup_insert_ne by exact Hne; exact Hin|].
    split; [intros _; rewrite Hfn; eauto|].
    repeat split.
  - split; [apply lookup_insert_eq|].
    split; [apply lookup_insert_eq|].
    split; [rewrite lookup_insert_ne by (intros Heq; apply Hne; symmetry; exact Heq); exact Hex|].
    split; [intros [[fn Hsome]|Hsome]; [discriminate | exact Hsome]|].
    repeat split.
Qed.

(** A first registration under a source text records the instance. *)
Lemma registerWithDatabase_first (h : Heap) (inIndex : Ref) (inObj : DbIndex) :
  objects h !! inIndex = Some inObj ->
  indexes (heap_database h) !! mapFnString inObj = None ->
  indexes (heap_database (registerWithDatabase inIndex h)) !! mapFnString inObj = Some inIndex /\
  objects (registerWithDatabase inIndex h) = objects h.
Proof.
  intros Hin Hreg. unfold registerWithDatabase. rewrite Hin, Hreg. simpl.
  split; [apply lookup_insert_eq | reflexivity].
Qed.

End RegistryFacts.

Section RegistryWitness.

Import Prolly Compare Fireproof DbIndex Standin LogEngine Callbacks Scenario.

Lemma registerWithDatabase_same_source_witness :
  let h' := registerWithDatabase (fst live_heap) (snd live_heap) in
  indexes (heap_database h') !! source_x = Some (fst live_heap) /\
  objects h' !! fst live_heap = Some (absorb live_index (rehydrate indexed_ab)) /\
  objects h' !! fst rehydrated_heap = Some (rehydrate indexed_ab) /\
  is_Some (mapFn (absorb live_index (rehydrate indexed_ab))) /\
  dbHead (absorb live_index (rehydrate indexed_ab)) = Some [1%nat] /\
  cid (indexById (absorb live_index (rehydrate indexed_ab))) = cid (indexById (this indexed_ab)) /\
  cid (indexByKey (absorb live_index (rehydrate indexed_ab)))
    = cid (indexByKey (this indexed_ab)).
Proof.
  assert (Hnone : mapFn (rehydrate indexed_ab) = None) by (reflexivity).
  pose proof (registerWithDatabase_same_source (snd live_heap) (fst live_heap)
                (fst rehydrated_heap) live_index (rehydrate indexed_ab)) as Hmerge.
  cbv zeta in Hmerge. rewrite Hnone in Hmerge.
  destruct Hmerge as (Hreg & Hwin & Hlose & Hfn & _ & Hhead & Hbyid & Hbykey).
  - reflexivity.
  - reflexivity.
  - reflexivity.
  - vm_compute. discriminate.
  - cbv zeta. split; [exact Hreg|]. split; [exact Hwin|]. split; [exact Hlose|].
    split; [apply Hfn; right; simpl; eauto|].
    split; [rewrite Hhead; reflexivity|].
    split; [rewrite Hbyid; reflexivity|].
    rewrite Hbykey. reflexivity.
Defined.

End RegistryWitness.

(** ** Callers that overlap *)

Section LoopFacts.

Import Prolly Compare Fireproof DbIndex.

Context `{!ProllyUtils} `{!Charwise} `{!TreeLib} `{!ProofLib} `{!NameRegex} `{!Engine}.

(** After a call, an update is in flight, and its promise is the one the
    caller holds. *)
Lemma updateIndex_in_flight (l : Loop) :
  updateIndexPromise (this (world (snd (updateIndex l)))) = Some (fst (updateIndex l)).
Proof.
  unfold updateIndex.
  destruct (updateIndexPromise (this (world l))) as [p|] eqn:Hp; simpl.
  - exact Hp.
  - reflexivity.
Qed.

(** While an update is in flight, a call returns its promise and changes
    nothing. *)
Lemma updateIndex_joins (l : Loop) (p : PromiseId) :
  updateIndexPromise (this (world l)) = Some p -> updateIndex l = (p, l).
Proof. intros Hp. unfold updateIndex. rewrite Hp. reflexivity. Qed.

Lemma callers_join (n : nat) (l : Loop) (p : PromiseId) :
  updateIndexPromise (this (world l)) = Some p -> callers n l = (repeat p n, l).
Proof.
  intros Hp. induction n as [|n IH]; simpl.
  - reflexivity.
  - rewrite (updateIndex_joins l p Hp), IH. reflexivity.
Qed.

(** The pass that settles is the one a caller at rest would have awaited. *)
Lemma settle_runs_pass (l : Loop) (p : PromiseId) :
  updateIndexPromise (this (world l)) = Some p ->
  world (settle l) = fst (await_updateIndex (world l)) /\
  awaited (settle l) p
    = Some (snd (innerUpdateIndex (world l)), dbHead (this (fst (innerUpdateIndex (world l))))).
Proof.
  intros Hp. unfold settle, await_updateIndex, awaited. rewrite Hp.
  destruct (innerUpdateIndex (world l)) as [w1 r]. simpl.
  split; [reflexivity | apply lookup_insert_eq].
Qed.

(** C9. A caller of [updateIndex] gets a promise [p]; any number of
    callers arriving before the pass settles get the same [p] and start no
    pass, so that at most one pass was started, exactly one when no update
    was in flight.  Once settled, [p] holds one outcome and one [dbHead]
    for all of them, and [updateIndexPromise] is reset. *)
Theorem updateIndex_single_flight (l : Loop) (n : nat) :
  let p := fst (updateIndex l) in
  let l1 := snd (updateIndex l) in
  callers n l1 = (repeat p n, l1) /\
  passes (snd (callers n l1)) = passes l1 /\
  (passes l1 <= S (passes l))%nat /\
  (updateIndexPromise (this (world l)) = None -> passes l1 = S (passes l)) /\
  awaited (settle (snd (callers n l1))) p
    = Some (snd (innerUpdateIndex (world l1)),
            dbHead (this (world (settle (snd (callers n l1)))))) /\
  updateIndexPromise (this (world (settle (snd (callers n l1))))) = None.
Proof.
  intros p l1.
  pose proof (updateIndex_in_flight l) as Hflight. fold p l1 in Hflight.
  rewrite (callers_join n l1 p Hflight). simpl.
  split; [reflexivity|]. split; [reflexivity|].
  split; [|split; [|split]].
  - subst l1. unfold updateIndex.
    destruct (updateIndexPromise (this (world l))); simpl; lia.
  - intros Hrest. subst l1. unfold updateIndex. rewrite Hrest. reflexivity.
  - destruct (settle_runs_pass l1 p Hflight) as [Hworld Hawaited].
    rewrite Hawaited, Hworld. unfold await_updateIndex.
    destruct (innerUpdateIndex (world l1)) as [w1 r]. reflexivity.
  - unfold settle. rewrite Hflight.
    destruct (innerUpdateIndex (world l1)) as [w1 r]. reflexivity.
Qed.

End LoopFacts.

Section LoopWitness.

Import Prolly Compare Fireproof DbIndex Standin LogEngine Callbacks Scenario.

Lemma updateIndex_single_flight_witness :
  callers 2 (snd (updateIndex idle_loop)) = ([0%nat; 0%nat], snd (updateIndex idle_loop)) /\
  passes (snd (updateIndex idle_loop)) = 1%nat /\
  awaited (settle (snd (updateIndex idle_loop))) 0%nat = Some (Ok tt, Some [1%nat]).
Proof.
  destruct (updateIndex_single_flight idle_loop 2) as (Hsame & _ & _ & Hone & Hseen & _).
  split; [exact Hsame|]. split; [exact (Hone eq_refl)|].
  exact Hseen.
Defined.

End LoopWitness.

(** * Further properties *)

(** ** The document store *)

Section MoreStoreFacts.

Import Prolly Fireproof Conditions.

Context `{!Engine} `{!Listeners}.

Lemma set_prop_map_set (k : string) (v : JsVal) (props : list (string * JsVal)) :
  set_prop k v props = map_set k v props.
Proof.
  induction props as [|[k' v'] props IH]; simpl; [reflexivity|].
  rewrite IH. reflexivity.
Qed.

(** The notification touches the set of listeners and the record of
    their calls, nothing else of the store. *)
Lemma notifyListeners_store (db : Fireproof) (changes : Changes) :
  blocks (fst (notifyListeners db changes)) = blocks db /\
  clock (fst (notifyListeners db changes)) = clock db /\
  config (fst (notifyListeners db changes)) = config db /\
  authCtx (fst (notifyListeners db changes)) = authCtx db /\
  instanceId (fst (notifyListeners db changes)) = instanceId db.
Proof.
  unfold notifyListeners.
  destruct (notify (listeners db) [] changes (delivered db)) as [[removed calls] thrown].
  simpl. repeat split.
Qed.








(** X2. When the validation hook throws on the new document, the old one
    ([get]'s result or [{}]) and the authorization context, [put] and
    [del] throw what the hook threw and the store is left as it was: the
    engine is not called and no listener is. *)
Theorem rejected_change_leaves_store (db : Fireproof)
    (validate : JsVal -> JsVal -> JsVal -> option JsError) :
  config db = Some (mkConfig (Some validate)) ->
  (forall _id doc rnd e,
     validate (with_id (id_or_random _id rnd) doc) (old_doc db (id_or_random _id rnd))
       (authCtx db) = Some e ->
     put db _id doc rnd = (db, Throw e)) /\
  (forall id e,
     validate (VObj [("_id", VStr id); ("_deleted", VBool true)]) (old_doc db id)
       (authCtx db) = Some e ->
     del db id = (db, Throw e)).
Proof.
  intros Hconfig. split.
  - intros _id doc rnd e Hreject. unfold put, runValidation. rewrite Hconfig. simpl.
    unfold old_doc in Hreject. rewrite Hreject. reflexivity.
  - intros id e Hreject. unfold del, runValidation. rewrite Hconfig. simpl.
    unfold old_doc in Hreject. rewrite Hreject. reflexivity.
Qed.

(** X3. A snapshot shares the blocks and stands at the clock asked for, or
    at the current one; it has neither the validation hook nor the
    listeners of the store it was taken from: no change made through it is
    validated, and none is announced. *)
Theorem snapshot_drops_hook_and_listeners (db : Fireproof) (c : option Clock) (rnd : string) :
  blocks (snapshot db c rnd) = blocks db /\
  clock (snapshot db c rnd) = match c with Some c' => c' | None => clock db end /\
  (forall id doc, runValidation (snapshot db c rnd) id doc = None) /\
  (forall _id doc r, delivered (fst (put (snapshot db c rnd) _id doc r)) = []) /\
  (forall id, delivered (fst (del (snapshot db c rnd) id)) = []).
Proof.
  split; [reflexivity|]. split; [reflexivity|]. split; [reflexivity|]. split.
  - intros _id doc r. unfold put. simpl. unfold putToProllyTree.
    destruct (Prolly.put _ _ _) as [blocks' [res|]]; reflexivity.
  - intros id. unfold del. simpl. unfold putToProllyTree.
    destruct (Prolly.put _ _ _) as [blocks' [res|]]; reflexivity.
Qed.

(** X4. [get] throws Not found exactly on the tombstone [null]; on an
    object it returns the object with [_id] set to the key asked for,
    whatever [_id] the object held, and its other properties as they
    are. *)
Theorem get_sets_id (db : Fireproof) (key : string) :
  (get db key = Throw (Error "Not found") <-> Prolly.get (blocks db) (clock db) key = VNull) /\
  (forall stored, Prolly.get (blocks db) (clock db) key = VObj stored ->
     exists props, get db key = Ok (VObj props) /\
       map_get "_id" props = Some (VStr key) /\
       forall k, k <> "_id" -> map_get k props = map_get k stored).
Proof.
  split.
  - unfold get. destruct (Prolly.get (blocks db) (clock db) key) as [| |b|n|s|l|ps];
      split; intros Heq; try discriminate; reflexivity.
  - intros stored Hget. unfold get. rewrite Hget.
    exists (set_prop "_id" (VStr key) stored). split; [reflexivity|].
    rewrite set_prop_map_set. split.
    + rewrite map_get_set. reflexivity.
    + intros k Hk. rewrite map_get_set.
      destruct (String.eqb_spec k "_id"); [contradiction | reflexivity].
Qed.

End MoreStoreFacts.

Section MoreStoreWitness.

Import Prolly Fireproof LogEngine Callbacks Scenario Conditions Cases.


(** A listener that unregisters itself is called once and is gone. *)
Example one_shot_listener :
  delivered (fst (put one_shot_store (Some "a") [] "r1"))
    = [(21%nat, Committed [mkPutEvent "a" (VObj [])]); (7%nat, Committed [mkPutEvent "a" (VObj [])])] /\
  listeners (fst (put one_shot_store (Some "a") [] "r1")) = [7%nat] /\
  snd (put one_shot_store (Some "a") [] "r1") = Ok (mkPutOutcome "a" [0%nat]).
Proof. repeat split. Qed.

Lemma rejected_change_leaves_store_witness :
  del guarded_store "a" = (guarded_store, Throw (Error "deletes are not allowed")).
Proof.
  destruct (rejected_change_leaves_store guarded_store no_deletes eq_refl) as [_ Hdel].
  apply Hdel. reflexivity.
Defined.

Lemma get_sets_id_witness :
  exists props, get guarded_store "a" = Ok (VObj props) /\
    map_get "_id" props = Some (VStr "a") /\
    forall k, k <> "_id" -> map_get k props = map_get k [("x", VNum (Fin 1))].
Proof.
  destruct (get_sets_id guarded_store "a") as [_ Hobj].
  apply Hobj. reflexivity.
Defined.

End MoreStoreWitness.

(** ** Listeners *)

Section ListenerFacts.

Import Prolly Fireproof Conditions.

Context `{!Engine} `{!Listeners}.

Lemma existsb_eqb_In (l : Listener) (ls : list Listener) :
  existsb (Nat.eqb l) ls = true <-> In l ls.
Proof.
  rewrite existsb_exists. split.
  - intros [x [Hin Heq]]. apply Nat.eqb_eq in Heq. subst x. exact Hin.
  - intros Hin. exists l. split; [exact Hin | apply Nat.eqb_refl].
Qed.

(** X5. The listeners are a set: registering keeps them without
    duplicates, enters the listener, keeps the others in their order, and
    registering a listener again changes nothing. *)
Theorem registerListener_set (db : Fireproof) (l : Listener) :
  List.NoDup (listeners db) ->
  List.NoDup (listeners (registerListener db l)) /\
  In l (listeners (registerListener db l)) /\
  (exists rest, listeners (registerListener db l) = listeners db ++ rest) /\
  registerListener (registerListener db l) l = registerListener db l.
Proof.
  intros Hnd. unfold registerListener.
  destruct (existsb (Nat.eqb l) (listeners db)) eqn:Hex.
  - rewrite Hex. apply existsb_eqb_In in Hex.
    split; [exact Hnd|]. split; [exact Hex|]. split; [|reflexivity].
    exists []. rewrite app_nil_r. reflexivity.
  - assert (Hnotin : ~ In l (listeners db)).
    { intros Hin. apply existsb_eqb_In in Hin. congruence. }
    simpl. split.
    + apply List.NoDup_app; [exact Hnd | constructor; [intros [] | constructor] |].
      intros x Hx [Heq|[]]. subst x. contradiction.
    + split; [apply in_or_app; right; left; reflexivity|].
      split; [exists [l]; reflexivity|].
      assert (Hnow : existsb (Nat.eqb l) (listeners db ++ [l]) = true).
      { apply existsb_eqb_In. apply in_or_app. right. left. reflexivity. }
      rewrite Hnow. reflexivity.
Qed.

Lemma notify_calls_to (l : Listener) (pending removed : list Listener) (changes : Changes)
    (calls : list (Listener * Changes)) :
  ~ In l pending ->
  List.filter (fun d : Listener * Changes => Nat.eqb (fst d) l)
    (snd (fst (notify pending removed changes calls)))
  = List.filter (fun d : Listener * Changes => Nat.eqb (fst d) l) calls.
Proof.
  revert removed calls. induction pending as [|l0 pending IH]; intros removed calls Hnotin; simpl.
  - reflexivity.
  - assert (Hne : Nat.eqb l0 l = false).
    { apply Nat.eqb_neq. intros ->. apply Hnotin. left. reflexivity. }
    assert (Hrest : ~ In l pending) by (intros Hin; apply Hnotin; right; exact Hin).
    destruct (existsb (Nat.eqb l0) removed); [exact (IH _ _ Hrest)|].
    destruct (throws (listener l0 changes)); simpl.
    + rewrite List.filter_app. simpl. rewrite Hne. apply app_nil_r.
    + rewrite (IH _ _ Hrest), List.filter_app. simpl. rewrite Hne. apply app_nil_r.
Qed.

Lemma notifyListeners_calls_to (db : Fireproof) (l : Listener) (changes : Changes) :
  ~ In l (listeners db) -> calls_to l (fst (notifyListeners db changes)) = calls_to l db.
Proof.
  intros Hnotin. pose proof (notify_calls_to l (listeners db) [] changes (delivered db) Hnotin)
    as Hcalls.
  unfold calls_to, notifyListeners.
  destruct (notify (listeners db) [] changes (delivered db)) as [[removed calls] thrown].
  exact Hcalls.
Qed.

Lemma putToProllyTree_calls_to (db : Fireproof) (l : Listener) (event : PutEvent) :
  ~ In l (listeners db) -> calls_to l (fst (putToProllyTree db event)) = calls_to l db.
Proof.
  intros Hnotin. unfold putToProllyTree.
  destruct (Prolly.put _ _ _) as [blocks' [r|]]; simpl; [|reflexivity].
  pose proof (notifyListeners_calls_to (with_clock (with_blocks db blocks') (head r)) l
                (Committed [event]) Hnotin) as Hcalls.
  destruct (notifyListeners _ _) as [db3 [u|e]]; exact Hcalls.
Qed.

(** X6. Once a listener is unregistered it is no longer among the
    listeners, the others stay, and no [put], [del] or [setClock] calls it
    again: the calls made to it are those made before. *)
Theorem unregistered_listener_not_called (db : Fireproof) (l : Listener) :
  ~ In l (listeners (unregisterListener db l)) /\
  (forall l', l' <> l ->
     (In l' (listeners (unregisterListener db l)) <-> In l' (listeners db))) /\
  (forall _id doc rnd,
     calls_to l (fst (put (unregisterListener db l) _id doc rnd)) = calls_to l db) /\
  (forall id, calls_to l (fst (del (unregisterListener db l) id)) = calls_to l db) /\
  (forall c, calls_to l (fst (setClock (unregisterListener db l) c)) = calls_to l db).
Proof.
  assert (Hnotin : ~ In l (listeners (unregisterListener db l))).
  { unfold unregisterListener. simpl. intros Hin. apply filter_In in Hin as [_ Hne].
    rewrite Nat.eqb_refl in Hne. discriminate. }
  split; [exact Hnotin|]. split; [|split; [|split]].
  - intros l' Hne. unfold unregisterListener. simpl. rewrite filter_In.
    split; [tauto|]. intros Hin. split; [exact Hin|].
    destruct (Nat.eqb_spec l l'); [congruence | reflexivity].
  - intros _id doc rnd. unfold put.
    destruct (runValidation _ _ _); [reflexivity|].
    exact (putToProllyTree_calls_to _ l _ Hnotin).
  - intros id. unfold del.
    destruct (runValidation _ _ _); [reflexivity|].
    exact (putToProllyTree_calls_to _ l _ Hnotin).
  - intros c. unfold setClock.
    exact (notifyListeners_calls_to (with_clock (unregisterListener db l) (map clock_item c))
             l (Reset c) Hnotin).
Qed.

End ListenerFacts.

Section ListenerWitness.

Import Prolly Fireproof LogEngine Callbacks Scenario Conditions Cases.

Lemma registerListener_set_witness :
  listeners (registerListener listened_store 7%nat) = [7%nat] /\
  In 7%nat (listeners listened_store).
Proof.
  assert (Hnd : List.NoDup (listeners (storage "abcde"))) by constructor.
  destruct (registerListener_set (storage "abcde") 7%nat Hnd) as (_ & Hin & _ & Hagain).
  split; [|exact Hin].
  unfold listened_store. rewrite Hagain. reflexivity.
Defined.

End ListenerWitness.

Section ListenerWitness2.

Import Prolly Fireproof LogEngine Callbacks Scenario Conditions Cases.

Lemma unregistered_listener_not_called_witness :
  calls_to 7%nat (fst (put (unregisterListener guarded_store 7%nat) (Some "b") [] "r1"))
    = calls_to 7%nat guarded_store /\
  (In 8%nat (listeners (unregisterListener guarded_store 7%nat))
   <-> In 8%nat (listeners guarded_store)).
Proof.
  destruct (unregistered_listener_not_called guarded_store 7%nat) as (_ & Hothers & Hput & _).
  split; [apply Hput | apply Hothers; discriminate].
Defined.

End ListenerWitness2.

(** ** What was written is what is read *)

Section RoundTrip.

Import Prolly Fireproof Conditions.

Context `{!Engine} `{!Listeners}.

(** A commit that returned: the engine gave a result, and the store holds
    the blocks it left and stands at the head of the result. *)
Lemma putToProllyTree_returned (db db' : Fireproof) (event : PutEvent) (out : PutOutcome) :
  putToProllyTree db event = (db', Ok out) ->
  exists r, Prolly.put (blocks db) (clock db) event = (blocks db', Some r) /\
    clock db' = head r /\ Fireproof.id out = pe_key event.
Proof.
  unfold putToProllyTree.
  destruct (Prolly.put (blocks db) (clock db) event) as [blocks' [r|]]; [|discriminate].
  destruct (notifyListeners_store (with_clock (with_blocks db blocks') (head r))
              (Committed [event])) as (Hblocks & Hclock & _).
  destruct (notifyListeners _ _) as [db3 [u|e]]; [|discriminate].
  intros Heq. injection Heq as <- <-. simpl in *. exists r.
  rewrite Hblocks, Hclock. repeat split.
Qed.

Lemma get_after_commit (db db' : Fireproof) (event : PutEvent) (out : PutOutcome) (k : string) :
  reads_own_writes ->
  putToProllyTree db event = (db', Ok out) ->
  Prolly.get (blocks db') (clock db') k
  = if String.eqb (pe_key event) k then pe_value event
    else Prolly.get (blocks db) (clock db) k.
Proof.
  intros Hengine Hcommit.
  destruct (putToProllyTree_returned _ _ _ _ Hcommit) as (r & Hput & Hclock & _).
  rewrite Hclock. exact (Hengine _ _ _ _ _ Hput k).
Qed.

(** X7. Over an engine that reads what it wrote, after a [put] that
    returns, [get] of the returned id gives the document put, with [_id]
    set to that id, and [get] of every other id gives what it gave
    before. *)
Theorem put_then_get (db db' : Fireproof) (_id : option string)
    (doc : list (string * JsVal)) (rnd : string) (out : PutOutcome) :
  reads_own_writes ->
  put db _id doc rnd = (db', Ok out) ->
  Fireproof.id out = id_or_random _id rnd /\
  get db' (Fireproof.id out) = Ok (VObj (set_prop "_id" (VStr (Fireproof.id out)) doc)) /\
  (forall k, k <> Fireproof.id out -> get db' k = get db k).
Proof.
  intros Hengine. unfold put. destruct (runValidation _ _ _); [discriminate|]. intros Hcommit.
  destruct (putToProllyTree_returned _ _ _ _ Hcommit) as (_ & _ & _ & Hid). simpl in Hid.
  split; [exact Hid|]. split.
  - unfold get. rewrite (get_after_commit _ _ _ _ _ Hengine Hcommit). simpl.
    rewrite Hid, String.eqb_refl. reflexivity.
  - intros k Hk. unfold get. rewrite (get_after_commit _ _ _ _ _ Hengine Hcommit). simpl.
    destruct (String.eqb_spec (id_or_random _id rnd) k); [congruence | reflexivity].
Qed.

(** X8. Over an engine that reads what it wrote, after a [del] that
    returns, [get] of the deleted id throws Not found, and [get] of every
    other id gives what it gave before. *)
Theorem del_then_get (db db' : Fireproof) (id : string) (out : PutOutcome) :
  reads_own_writes ->
  del db id = (db', Ok out) ->
  get db' id = Throw (Error "Not found") /\
  (forall k, k <> id -> get db' k = get db k).
Proof.
  intros Hengine. unfold del. destruct (runValidation _ _ _); [discriminate|]. intros Hcommit.
  split.
  - unfold get. rewrite (get_after_commit _ _ _ _ _ Hengine Hcommit). simpl.
    rewrite String.eqb_refl. reflexivity.
  - intros k Hk. unfold get. rewrite (get_after_commit _ _ _ _ _ Hengine Hcommit). simpl.
    destruct (String.eqb_spec id k); [congruence | reflexivity].
Qed.

End RoundTrip.

Section LogRoundTrip.

Import Prolly Fireproof LogEngine Callbacks Scenario Conditions Cases.

Lemma visible_own_frontier (log : Log) : visible log (frontier log) = log.
Proof.
  unfold visible, frontier. destruct log as [|e log] using rev_ind; [reflexivity|].
  rewrite length_app. simpl. rewrite Nat.add_1_r. simpl. rewrite Nat.max_0_r.
  apply firstn_all2. rewrite length_app. simpl. lia.
Qed.

(** The log engine reads what it wrote. *)
Lemma log_reads_own_writes : reads_own_writes.
Proof.
  intros log c event log' r Hput k. simpl in *. unfold log_put, clock_eqb in Hput.
  destruct (bool_decide (c = frontier log)) eqn:Hfront; [|discriminate].
  apply bool_decide_eq_true in Hfront. injection Hput as <- <-. simpl.
  unfold log_get. rewrite visible_frontier, latest_app. simpl.
  destruct (String.eqb (pe_key event) k); [reflexivity|].
  rewrite Hfront, visible_own_frontier. reflexivity.
Qed.

Lemma put_then_get_witness :
  get guarded_store "a" = Ok (VObj [("x", VNum (Fin 1)); ("_id", VStr "a")]).
Proof.
  assert (Hput : put hooked_store (Some "a") [("x", VNum (Fin 1))] "r1"
                 = (guarded_store, Ok (mkPutOutcome "a" [0%nat]))) by (vm_compute; reflexivity).
  destruct (put_then_get hooked_store guarded_store (Some "a") [("x", VNum (Fin 1))] "r1"
              (mkPutOutcome "a" [0%nat]) log_reads_own_writes Hput) as (_ & Hget & _).
  exact Hget.
Defined.

Lemma del_then_get_witness :
  get Scenario.deleted_store "a" = Throw (Error "Not found").
Proof.
  assert (Hdel : del (put_doc (storage "abcde") "a" [("x", VNum (Fin 1))]) "a"
                 = (Scenario.deleted_store, Ok (mkPutOutcome "a" [1%nat])))
    by (vm_compute; reflexivity).
  destruct (del_then_get (put_doc (storage "abcde") "a" [("x", VNum (Fin 1))])
              Scenario.deleted_store "a" (mkPutOutcome "a" [1%nat]) log_reads_own_writes Hdel)
    as [Hget _].
  exact Hget.
Defined.

End LogRoundTrip.

(** ** Composite keys, documents and limits *)

Section MoreCompareFacts.

Import Compare Conditions.

Context `{!ProllyUtils}.

(** X9. When the primary keys differ, [compare] returns their order and
    does not look at the references: a reference NaN, or a key with no
    reference at all, does not make it throw. *)
Theorem compare_primary_decides (aKey bKey : JsVal) (arest brest : list JsVal) :
  simpleCompare aKey bKey <> 0 ->
  compare (VArr (aKey :: arest)) (VArr (bKey :: brest)) = Ok (simpleCompare aKey bKey).
Proof.
  intros Hne. unfold compare. simpl.
  destruct (Z.eqb_spec (simpleCompare aKey bKey) 0); [contradiction | reflexivity].
Qed.

(** X10. A composite key that is neither an array nor a string cannot be
    taken apart: [compare] throws a TypeError, whichever side it is on and
    whatever the other side is. *)
Theorem compare_not_iterable (a b : JsVal) :
  is_iterable a = false \/ (is_iterable a = true /\ is_iterable b = false) ->
  exists msg, compare a b = Throw (TypeError msg).
Proof.
  intros [Ha|[Ha Hb]]; unfold compare.
  - destruct a; try discriminate; simpl; eauto.
  - destruct a; try discriminate; destruct b; try discriminate; simpl; eauto.
Qed.

End MoreCompareFacts.

Section MoreCompareWitness.

Import Compare Conditions Standin.

Lemma compare_primary_decides_witness :
  compare (VArr [VStr "a"; VNum (Fin 1)]) (VArr [VStr "b"; VNum NaN]) = Ok (-1).
Proof.
  rewrite (compare_primary_decides (VStr "a") (VStr "b") [VNum (Fin 1)] [VNum NaN]).
  - reflexivity.
  - vm_compute. discriminate.
Defined.

Lemma compare_not_iterable_witness :
  exists msg, compare (VNum (Fin 1)) (VArr [VStr "b"; VStr "x"]) = Throw (TypeError msg).
Proof.
  apply compare_not_iterable. left. reflexivity.
Defined.

End MoreCompareWitness.

Section DocFacts.

Import Prolly Compare Fireproof DbIndex Conditions.

Context `{!ProllyUtils} `{!Charwise} `{!TreeLib} `{!ProofLib} `{!NameRegex} `{!Engine}.

(** Setting the properties of a list without repeated names, one after
    the other: each name ends with its value, the names not set keep
    theirs. *)
Lemma fold_set_prop (props : list (string * JsVal)) :
  List.NoDup (map fst props) ->
  forall init k,
    map_get k (fold_left (fun acc p => set_prop (fst p) (snd p) acc) props init)
    = match map_get k props with
      | Some v => Some v
      | None => map_get k init
      end.
Proof.
  induction props as [|[k0 v0] props IH]; simpl; intros Hnd init k; [reflexivity|].
  apply List.NoDup_cons_iff in Hnd as [Hnotin Hnd].
  rewrite (IH Hnd), set_prop_map_set, map_get_set.
  destruct (String.eqb_spec k k0) as [->|Hne]; [|reflexivity].
  destruct (map_get k0 props) as [v|] eqn:Hget; [|reflexivity].
  exfalso. apply Hnotin. apply map_get_keys. eauto.
Qed.

(** X11. The document handed to the map function has every property of
    the stored value, and an [_id]: the key of the change, unless the
    value has an [_id] of its own, which then wins. *)
Theorem makeDoc_properties (key : string) (props : list (string * JsVal)) :
  List.NoDup (map fst props) ->
  exists doc, makeDoc key (VObj props) = VObj doc /\
    map_get "_id" doc = Some (default (VStr key) (map_get "_id" props)) /\
    forall k, k <> "_id" -> map_get k doc = map_get k props.
Proof.
  intros Hnd. unfold makeDoc. simpl. eexists. split; [reflexivity|]. split.
  - rewrite (fold_set_prop props Hnd). destruct (map_get "_id" props); reflexivity.
  - intros k Hk. rewrite (fold_set_prop props Hnd).
    destruct (map_get k props); [reflexivity|]. simpl.
    destruct (String.eqb_spec k "_id"); [contradiction | reflexivity].
Qed.

(** [slice(0, limit)] takes from the front. *)
Lemma slice0_front {A : Type} (l : list A) :
  slice0 l None = l /\
  (forall limit, exists rest, l = slice0 l limit ++ rest) /\
  (forall n : nat, slice0 l (Some (Z.of_nat n)) = firstn n l /\
                   length (slice0 l (Some (Z.of_nat n))) = Nat.min n (length l)) /\
  (forall k : nat, (0 < k)%nat ->
     length (slice0 l (Some (- Z.of_nat k))) = (length l - k)%nat).
Proof.
  split; [reflexivity|]. split; [|split].
  - intros [n|]; simpl.
    + destruct (0 <=? n)%Z; eexists; symmetry; apply firstn_skipn.
    + exists []. rewrite app_nil_r. reflexivity.
  - intros n. unfold slice0. destruct (Z.leb_spec 0 (Z.of_nat n)); [|lia].
    rewrite Nat2Z.id. split; [reflexivity | apply length_firstn].
  - intros k Hk. unfold slice0. destruct (Z.leb_spec 0 (- Z.of_nat k)); [lia|].
    rewrite Z.opp_involutive, Nat2Z.id, length_firstn. lia.
Qed.

End DocFacts.

Section DocWitness.

Import Prolly Compare Fireproof DbIndex Conditions Standin LogEngine Callbacks.

Lemma makeDoc_properties_witness :
  exists doc, makeDoc "a" (VObj [("x", VNum (Fin 1)); ("_id", VStr "z")]) = VObj doc /\
    map_get "_id" doc = Some (VStr "z") /\
    forall k, k <> "_id" -> map_get k doc = map_get k [("x", VNum (Fin 1)); ("_id", VStr "z")].
Proof.
  apply (makeDoc_properties "a" [("x", VNum (Fin 1)); ("_id", VStr "z")]).
  constructor; [intros [Heq|[]]; discriminate|].
  constructor; [intros [] | constructor].
Defined.

End DocWitness.

(** ** The registry and the constructor *)

Section MoreRegistryFacts.

Import Prolly Compare Fireproof DbIndex Conditions.

Context `{!ProllyUtils} `{!Charwise} `{!TreeLib} `{!ProofLib} `{!NameRegex} `{!Engine}.

Lemma absorb_source (to from : DbIndex) : mapFnString (absorb to from) = mapFnString to.
Proof. reflexivity. Qed.

Lemma absorb_self (a : DbIndex) : absorb a a = a.
Proof. destruct a as [fn src nm [r1 c1] [r2 c2] h i p]. reflexivity. Qed.

Lemma absorb_again (a b : DbIndex) : absorb (absorb a b) b = absorb a b.
Proof. reflexivity. Qed.

Lemma registerWithDatabase_ok (h : Heap) (r : Ref) :
  registry_ok h -> registry_ok (registerWithDatabase r h).
Proof.
  intros Hok. unfold registerWithDatabase.
  destruct (objects h !! r) as [inObj|] eqn:Hin; [|exact Hok].
  destruct (indexes (heap_database h) !! mapFnString inObj) as [ex|] eqn:Hreg.
  - destruct (objects h !! ex) as [exObj|] eqn:Hex; [|exact Hok].
    destruct (mapFn exObj) as [fn|] eqn:Hfn.
    + intros src r0 Hsrc. simpl in *.
      destruct (Hok src r0 Hsrc) as [obj0 [Hobj0 Hsrc0]].
      destruct (decide (ex = r0)) as [->|Hne].
      * rewrite lookup_insert_eq. eexists. split; [reflexivity|].
        rewrite absorb_source. congruence.
      * rewrite lookup_insert_ne by exact Hne. eauto.
    + intros src r0 Hsrc. simpl in *.
      destruct (decide (mapFnString inObj = src)) as [<-|Hne].
      * rewrite lookup_insert_eq in Hsrc. injection Hsrc as <-.
        rewrite lookup_insert_eq. eexists. split; reflexivity.
      * rewrite lookup_insert_ne in Hsrc by exact Hne.
        destruct (Hok src r0 Hsrc) as [obj0 [Hobj0 Hsrc0]].
        destruct (decide (r = r0)) as [->|Hner].
        -- rewrite lookup_insert_eq. eexists. split; [reflexivity|].
           rewrite absorb_source. congruence.
        -- rewrite lookup_insert_ne by exact Hner. eauto.
  - intros src r0 Hsrc. simpl in *.
    destruct (decide (mapFnString inObj = src)) as [<-|Hne].
    + rewrite lookup_insert_eq in Hsrc. injection Hsrc as <-. eauto.
    + rewrite lookup_insert_ne in Hsrc by exact Hne. exact (Hok src r0 Hsrc).
Qed.

Lemma fresh_ref_new (objs : gmap Ref DbIndex) (r : Ref) (obj : DbIndex) :
  objs !! r = Some obj -> fresh_ref objs <> r.
Proof.
  intros Hr Heq. subst r. rewrite fresh_ref_unused in Hr. discriminate.
Qed.

(** X13. The registry stays consistent: if every entry names an object of
    the heap with the entry's source text, it is still so after
    [registerWithDatabase] and after the construction of an index,
    temporary or not. *)
Theorem registry_stays_consistent (h : Heap) :
  registry_ok h ->
  (forall r, registry_ok (registerWithDatabase r h)) /\
  (forall arg clock opts rnd, registry_ok (snd (new_DbIndex h arg clock opts rnd))).
Proof.
  intros Hok. split; [intros r; exact (registerWithDatabase_ok h r Hok)|].
  intros arg clock opts rnd. unfold new_DbIndex.
  destruct arg as [code|fn code]; simpl;
    (match goal with
     | |- registry_ok (if temporary opts then ?h1 else _) =>
         assert (Hok1 : registry_ok h1);
         [ intros src r0 Hsrc; simpl in *;
           destruct (Hok src r0 Hsrc) as [obj0 [Hobj0 Hsrc0]];
           rewrite lookup_insert_ne by exact (fresh_ref_new _ _ _ Hobj0); eauto
         | destruct (temporary opts); [exact Hok1 | exact (registerWithDatabase_ok _ _ Hok1)] ]
     end).
Qed.

(** X14. Registering an index a second time changes nothing: the heap and
    the registry are as the first registration left them. *)
Theorem registerWithDatabase_twice (h : Heap) (r : Ref) :
  registerWithDatabase r (registerWithDatabase r h) = registerWithDatabase r h.
Proof.
  destruct (objects h !! r) as [inObj|] eqn:Hin.
  2: { assert (Hfirst : registerWithDatabase r h = h)
         by (unfold registerWithDatabase; rewrite Hin; reflexivity).
       rewrite !Hfirst. reflexivity. }
  destruct (indexes (heap_database h) !! mapFnString inObj) as [ex|] eqn:Hreg.
  - destruct (objects h !! ex) as [exObj|] eqn:Hex.
    2: { assert (Hfirst : registerWithDatabase r h = h)
           by (unfold registerWithDatabase; rewrite Hin, Hreg, Hex; reflexivity).
         rewrite !Hfirst. reflexivity. }
    destruct (mapFn exObj) as [fn|] eqn:Hfn.
    + assert (Hfirst : registerWithDatabase r h
                       = mkHeap (<[ex := absorb exObj inObj]> (objects h)) (heap_database h))
        by (unfold registerWithDatabase; rewrite Hin, Hreg, Hex, Hfn; reflexivity).
      rewrite Hfirst. unfold registerWithDatabase. simpl.
      destruct (decide (ex = r)) as [->|Hne].
      * assert (inObj = exObj) by congruence. subst inObj.
        rewrite lookup_insert_eq, absorb_source, Hreg, lookup_insert_eq. simpl.
        rewrite Hfn, absorb_self, insert_insert_eq. reflexivity.
      * rewrite lookup_insert_ne by exact Hne. rewrite Hin, Hreg, lookup_insert_eq.
        simpl. rewrite Hfn, absorb_again, insert_insert_eq. reflexivity.
    + assert (Hfirst : registerWithDatabase r h
                       = mkHeap (<[r := absorb inObj exObj]> (objects h))
                           (set_indexes (heap_database h)
                              (<[mapFnString inObj := r]> (indexes (heap_database h)))))
        by (unfold registerWithDatabase; rewrite Hin, Hreg, Hex, Hfn; reflexivity).
      rewrite Hfirst. unfold registerWithDatabase. simpl.
      rewrite lookup_insert_eq, absorb_source, lookup_insert_eq, lookup_insert_eq.
      rewrite absorb_self. simpl.
      destruct (mapFn inObj); rewrite insert_insert_eq; [reflexivity|].
      unfold set_indexes. simpl. rewrite insert_insert_eq. reflexivity.
  - assert (Hfirst : registerWithDatabase r h
                     = mkHeap (objects h)
                         (set_indexes (heap_database h)
                            (<[mapFnString inObj := r]> (indexes (heap_database h)))))
      by (unfold registerWithDatabase; rewrite Hin, Hreg; reflexivity).
    rewrite Hfirst. unfold registerWithDatabase. simpl.
    rewrite Hin, lookup_insert_eq, Hin, absorb_self.
    rewrite (insert_id _ _ _ Hin).
    destruct (mapFn inObj); [reflexivity|].
    unfold set_indexes. simpl. rewrite insert_insert_eq. reflexivity.
Qed.

End MoreRegistryFacts.

Section ConstructorFacts.

Import Prolly Compare Fireproof DbIndex Conditions.

Context `{!ProllyUtils} `{!Charwise} `{!TreeLib} `{!ProofLib} `{!NameRegex} `{!Engine}.

Lemma new_DbIndex_ref (h : Heap) (arg : MapFnArg) (clock : option IndexClock)
    (opts : IndexOpts) (rnd : string) :
  fst (new_DbIndex h arg clock opts rnd) = fresh_ref (objects h).
Proof. unfold new_DbIndex. destruct arg; reflexivity. Qed.

(** What [registerWithDatabase] leaves alone: the objects other than the
    one registered and the one the registry held under its source text,
    and the entries of the other source texts. *)
Lemma registerWithDatabase_frame (h : Heap) (r : Ref) (inObj : DbIndex) :
  objects h !! r = Some inObj ->
  is_Some (objects (registerWithDatabase r h) !! r) /\
  (forall r0 obj0, objects h !! r0 = Some obj0 -> r0 <> r ->
     indexes (heap_database h) !! mapFnString inObj <> Some r0 ->
     objects (registerWithDatabase r h) !! r0 = Some obj0) /\
  (forall src, src <> mapFnString inObj ->
     indexes (heap_database (registerWithDatabase r h)) !! src
     = indexes (heap_database h) !! src).
Proof.
  intros Hin. unfold registerWithDatabase. rewrite Hin.
  destruct (indexes (heap_database h) !! mapFnString inObj) as [ex|] eqn:Hreg.
  - destruct (objects h !! ex) as [exObj|] eqn:Hex; [|rewrite Hin; eauto].
    destruct (mapFn exObj); simpl.
    + split; [|split].
      * destruct (decide (ex = r)) as [->|Hne];
          [rewrite lookup_insert_eq | rewrite lookup_insert_ne by exact Hne; rewrite Hin]; eauto.
      * intros r0 obj0 Hr0 _ Hnot. rewrite lookup_insert_ne by congruence. exact Hr0.
      * reflexivity.
    + split; [|split].
      * rewrite lookup_insert_eq. eauto.
      * intros r0 obj0 Hr0 Hne _. rewrite lookup_insert_ne by congruence. exact Hr0.
      * intros src Hsrc. rewrite lookup_insert_ne by congruence. reflexivity.
  - simpl. split; [rewrite Hin; eauto|]. split; [auto|].
    intros src Hsrc. rewrite lookup_insert_ne by congruence. reflexivity.
Qed.

(** X15. Constructing an index gives it a reference no object had.  The
    objects already there are left as they were, but for the one the
    registry held under the same source text, and the registry keeps its
    entries for the other source texts; a temporary index leaves the
    registry as it was. *)
Theorem new_DbIndex_frame (h : Heap) (arg : MapFnArg) (clock : option IndexClock)
    (opts : IndexOpts) (rnd : string) :
  objects h !! fst (new_DbIndex h arg clock opts rnd) = None /\
  is_Some (objects (snd (new_DbIndex h arg clock opts rnd))
             !! fst (new_DbIndex h arg clock opts rnd)) /\
  (forall r0 obj0, objects h !! r0 = Some obj0 ->
     indexes (heap_database h) !! code_of arg <> Some r0 ->
     objects (snd (new_DbIndex h arg clock opts rnd)) !! r0 = Some obj0) /\
  (forall src, src <> code_of arg ->
     indexes (heap_database (snd (new_DbIndex h arg clock opts rnd))) !! src
     = indexes (heap_database h) !! src) /\
  (temporary opts = true ->
     heap_database (snd (new_DbIndex h arg clock opts rnd)) = heap_database h).
Proof.
  rewrite new_DbIndex_ref. split; [apply fresh_ref_unused|].
  unfold new_DbIndex.
  destruct arg as [code|fn code]; simpl;
    (match goal with
     | |- context [if temporary opts then ?h1 else registerWithDatabase ?r ?h1'] =>
         match h1 with
         | mkHeap (<[_ := ?this]> _) _ =>
             assert (Hthis : objects h1 !! r = Some this) by apply lookup_insert_eq;
             destruct (registerWithDatabase_frame h1 r this Hthis) as (Hsome & Hobjs & Hregs);
             destruct (temporary opts)
         end
     end); simpl in *.
  all: repeat split; try discriminate; try reflexivity; try (rewrite lookup_insert_eq; eauto; fail);
    try exact Hsome.
  all: try (intros r0 obj0 Hr0 Hnot;
            first [ apply Hobjs;
                    [ rewrite lookup_insert_ne by exact (fresh_ref_new _ _ _ Hr0); exact Hr0
                    | intros Heq; exact (fresh_ref_new _ _ _ Hr0 (eq_sym Heq))
                    | exact Hnot ]
                  | rewrite lookup_insert_ne by exact (fresh_ref_new _ _ _ Hr0); exact Hr0 ]).
  all: try (intros src Hsrc; exact (Hregs src Hsrc)).
Qed.

(** X16. An index read back from a descriptor whose source text the
    registry does not hold yet is registered under that text, has no live
    map function and no tree in memory, and its own descriptor is the one
    it was read from (the name given, when it is not empty, the source
    text, [dbHead] and the [cid]s of both trees). *)
Theorem fromJSON_toJSON (h : Heap) (j : IndexJson) (rnd n : string) :
  indexes (heap_database h) !! json_code j = None ->
  json_name j = Some n -> n <> EmptyString ->
  exists obj,
    objects (snd (fromJSON h j rnd)) !! fst (fromJSON h j rnd) = Some obj /\
    toJSON obj = j /\
    mapFn obj = None /\
    root (indexById obj) = None /\ root (indexByKey obj) = None /\
    indexes (heap_database (snd (fromJSON h j rnd))) !! json_code j
    = Some (fst (fromJSON h j rnd)).
Proof.
  intros Hreg Hname Hn. unfold fromJSON, new_DbIndex. simpl.
  rewrite Hname. destruct (String.eqb_spec n EmptyString) as [Heq|_]; [contradiction|].
  unfold registerWithDatabase. simpl. rewrite lookup_insert_eq. simpl. rewrite Hreg. simpl.
  eexists. split; [apply lookup_insert_eq|].
  split; [|split; [reflexivity|split; [reflexivity|split; [reflexivity|apply lookup_insert_eq]]]].
  unfold toJSON. simpl. destruct j as [jn jc [jdb jid jkey]]. simpl in *. subst jn. reflexivity.
Qed.

End ConstructorFacts.

(** ** Loading and writing the trees *)

Section TreeFacts.

Import Prolly Compare Fireproof DbIndex Conditions.

Context `{!ProllyUtils} `{!Charwise} `{!TreeLib} `{!ProofLib} `{!NameRegex} `{!Engine}.

(** X17. [loadIndex] never changes the [cid] and keeps a root that is
    there; a root that is absent is read from the blocks by the [cid]; the
    index is left without root exactly when it has neither root nor
    [cid]; loading a second time changes nothing. *)
Theorem loadIndex_keeps (blocks : IndexBlocks) (index : IndexRoot) (opts : TreeOpts) :
  cid (loadIndex blocks index opts) = cid index /\
  (forall node, root index = Some node -> loadIndex blocks index opts = index) /\
  (forall c, root index = None -> cid index = Some c ->
     root (loadIndex blocks index opts) = Some (load (getBlock blocks) c opts)) /\
  (root (loadIndex blocks index opts) = None <-> root index = None /\ cid index = None) /\
  loadIndex blocks (loadIndex blocks index opts) opts = loadIndex blocks index opts.
Proof.
  split; [apply loadIndex_cid|]. split; [|split; [|split; [|apply loadIndex_again]]].
  - intros node Hroot. unfold loadIndex. rewrite Hroot. reflexivity.
  - intros c Hroot Hcid. unfold loadIndex. rewrite Hroot, Hcid. reflexivity.
  - unfold loadIndex. destruct (root index) eqn:Hroot.
    + rewrite Hroot. split; [discriminate | intros [Hnone _]; discriminate].
    + destruct (cid index) eqn:Hcid; simpl.
      * split; [discriminate | intros [_ Hnone]; discriminate].
      * rewrite Hroot. split; auto.
Qed.

Lemma fold_putBlock_last {B : Type} (f : B -> CID * Bytes) (items : list B) (x : B)
    (blocks : IndexBlocks) :
  getBlock (fold_left (fun b item => putBlock b (f item)) (items ++ [x]) blocks) (fst (f x))
  = Some (snd (f x)).
Proof.
  rewrite fold_left_app. simpl. unfold getBlock, putBlock, IndexBlocks.
  apply (lookup_insert_eq (M := gmap CID)).
Qed.

(** X18. A [bulkIndex] that returns, given entries, returns an index with
    its root in memory and the [cid] of that root's block, and the blocks
    hold the bytes of that block under the [cid]: the tree can be loaded
    back from what was returned.  Given no entry, it returns the index and
    the blocks as they were. *)
Theorem bulkIndex_stores_root (blocks blocks' : IndexBlocks) (inIndex index' : IndexRoot)
    (indexEntries : list IndexEntry) (opts : TreeOpts) :
  bulkIndex blocks inIndex indexEntries opts = (blocks', Ok index') ->
  (indexEntries = [] -> blocks' = blocks /\ index' = inIndex) /\
  (indexEntries <> [] ->
     exists node, root index' = Some node /\
       cid index' = Some (fst (block node)) /\
       getBlock blocks' (fst (block node)) = Some (snd (block node))).
Proof.
  intros Hbulk. split.
  - intros ->. simpl in Hbulk. injection Hbulk as <- <-. split; reflexivity.
  - intros Hne. destruct indexEntries as [|entry more]; [contradiction|].
    unfold bulkIndex in Hbulk.
    assert (Hwith : forall node0,
      (let '(root', newBlocks) := bulk node0 (entry :: more) in
       (putBlock (fold_left putBlock newBlocks blocks) (block root'),
        Ok (mkIndexRoot (Some root') (Some (fst (block root'))))))
      = (blocks', Ok index') ->
      exists node, root index' = Some node /\
        cid index' = Some (fst (block node)) /\
        getBlock blocks' (fst (block node)) = Some (snd (block node))).
    { intros node0. destruct (bulk node0 (entry :: more)) as [root' newBlocks].
      intros Heq. injection Heq as <- <-. exists root'. simpl.
      split; [reflexivity|]. split; [reflexivity|].
      unfold getBlock, putBlock, IndexBlocks. apply (lookup_insert_eq (M := gmap CID)). }
    destruct (root inIndex) as [node0|]; [exact (Hwith node0 Hbulk)|].
    destruct (cid inIndex) as [c|]; [exact (Hwith _ Hbulk)|].
    destruct (last (create (getBlock blocks) (entry :: more) opts)) as [returnNode|] eqn:Hlast;
      [|discriminate].
    injection Hbulk as <- <-. exists returnNode. simpl.
    split; [reflexivity|]. split; [reflexivity|].
    apply last_Some in Hlast as [nodes Hnodes]. rewrite Hnodes.
    exact (fold_putBlock_last block nodes returnNode blocks).
Qed.

End TreeFacts.

(** ** What an update touches *)

Section UpdateEffects.

Import Prolly Compare Fireproof DbIndex Conditions Notions.

Context `{!ProllyUtils} `{!Charwise} `{!TreeLib} `{!ProofLib} `{!NameRegex} `{!Engine}.

(** The unit of work keeps the map function and its source text, leaves
    [dbHead] when it throws and sets it when it completes. *)
Lemma updateIndex_transaction_fields (result : ChangesResult) (blocks : IndexBlocks)
    (this0 : DbIndex) :
  mapFn (fst (fst (updateIndex_transaction result blocks this0))) = mapFn this0 /\
  mapFnString (fst (fst (updateIndex_transaction result blocks this0))) = mapFnString this0 /\
  (forall e, snd (updateIndex_transaction result blocks this0) = Throw e ->
     dbHead (fst (fst (updateIndex_transaction result blocks this0))) = dbHead this0).
Proof.
  destruct (loaded_fields blocks this0) as (Hhead & Hfn & Hsrc & _).
  unfold updateIndex_transaction.
  destruct (old_entries _ _) as [[oldIndexEntries removeByIdIndexEntries]|e0];
    [|simpl; auto].
  destruct (mapFn (loaded blocks this0)) as [fn|] eqn:Hlive; [|simpl; auto].
  destruct (mapM _ _) as [byIdIndexEntries|e0]; [|simpl; auto].
  destruct (bulkIndex blocks _ _ _) as [blocks1 [byId'|e0]]; [|simpl; auto].
  destruct (bulkIndex blocks1 _ _ _) as [blocks2 [byKey'|e0]]; simpl.
  - repeat split; try assumption. discriminate.
  - repeat split; assumption.
Qed.

(** X19. An update never touches the document store, the registry, the
    map function or its source text.  When it throws, nothing is
    announced and [dbHead] is the one before; when it completes, [dbHead] is the clock of the
    store, and [notifyExternal('dbIndex')] is called once if there were
    changes and not at all if there were none. *)
Theorem innerUpdateIndex_effects (w : World) :
  store (database (fst (innerUpdateIndex w))) = store (database w) /\
  indexes (database (fst (innerUpdateIndex w))) = indexes (database w) /\
  mapFn (this (fst (innerUpdateIndex w))) = mapFn (this w) /\
  mapFnString (this (fst (innerUpdateIndex w))) = mapFnString (this w) /\
  (forall e, snd (innerUpdateIndex w) = Throw e ->
     external (database (fst (innerUpdateIndex w))) = external (database w) /\
     dbHead (this (fst (innerUpdateIndex w))) = dbHead (this w)) /\
  (snd (innerUpdateIndex w) = Ok tt ->
     dbHead (this (fst (innerUpdateIndex w))) = Some (clock (store (database w))) /\
     external (database (fst (innerUpdateIndex w)))
     = external (database w)
       ++ match rows (changesSince (store (database w)) (dbHead (this w))) with
          | [] => []
          | _ => ["dbIndex"]
          end).
Proof.
  pose proof (fun w1 => innerUpdateIndex_ok w w1) as Hok.
  unfold innerUpdateIndex, rebuild in *. simpl in *.
  destruct (rows (changesSince (store (database w)) (dbHead (this w)))) as [|row more] eqn:Hrows.
  - simpl. repeat split; try discriminate.
    + rewrite changesSince_clock. reflexivity.
    + rewrite app_nil_r. reflexivity.
  - unfold doTransaction in *.
    pose proof (updateIndex_transaction_fields
                  (changesSince (store (database w)) (dbHead (this w)))
                  (indexBlocks (database w)) (this w)) as (Hfn & Hsrc & Hthrow).
    destruct (updateIndex_transaction _ _ _) as [[this1 inner] [u|e0]]; simpl in *.
    + repeat split; try assumption; try discriminate.
      destruct (Hok _ eq_refl) as [Hhead _]. exact Hhead.
    + repeat split; try assumption; try discriminate.
      exact (Hthrow e0 eq_refl).
Qed.

(** X20. An index that has a [dbHead] and an id index with neither root
    nor [cid], as an update that emitted nothing leaves it, cannot take a
    change: the update throws the TypeError of reading [getMany] of
    [null], whether or not a live map function is attached. *)
Theorem innerUpdateIndex_without_id_tree (w : World) :
  rows (changesSince (store (database w)) (dbHead (this w))) <> [] ->
  dbHead (this w) <> None ->
  indexById (this w) = mkIndexRoot None None ->
  snd (innerUpdateIndex w)
  = Throw (TypeError "Cannot read properties of null (reading 'getMany')").
Proof.
  intros Hrows Hhead Hid. unfold innerUpdateIndex, rebuild. simpl.
  destruct (rows (changesSince (store (database w)) (dbHead (this w)))) as [|row more] eqn:Hr;
    [contradiction|].
  unfold doTransaction, updateIndex_transaction. rewrite Hr.
  assert (Hold : old_entries (loaded (indexBlocks (database w)) (this w)) (row :: more)
                 = Throw (TypeError "Cannot read properties of null (reading 'getMany')")).
  { unfold old_entries.
    destruct (loaded_fields (indexBlocks (database w)) (this w))
      as (Hh & _ & _ & _ & _ & Hbyid & _).
    rewrite Hh, Hbyid, Hid. destruct (dbHead (this w)); [reflexivity | contradiction]. }
  rewrite Hold. reflexivity.
Qed.

End UpdateEffects.

(** ** Queries *)

Section MoreQueryFacts.

Import Prolly Compare Fireproof DbIndex Conditions Notions.

Context `{!ProllyUtils} `{!Charwise} `{!TreeLib} `{!ProofLib} `{!NameRegex} `{!Engine}.

(** X12. [applyLimit] keeps the [cids] of the response and returns its
    rows from the front, in their order: all of them without a limit, the
    first [n] for a limit [n] that is not negative (all when there are
    fewer), and all but the last [k] for the limit [-k]. *)
Theorem applyLimit_prefix (results : Response) :
  (forall limit, cids (applyLimit results limit) = cids results) /\
  result (applyLimit results None) = result results /\
  (forall limit, exists rest, result results = result (applyLimit results limit) ++ rest) /\
  (forall n : nat,
     result (applyLimit results (Some (Z.of_nat n))) = firstn n (result results) /\
     length (result (applyLimit results (Some (Z.of_nat n))))
     = Nat.min n (length (result results))) /\
  (forall k : nat, (0 < k)%nat ->
     length (result (applyLimit results (Some (- Z.of_nat k))))
     = (length (result results) - k)%nat).
Proof.
  split; [reflexivity|]. exact (slice0_front (result results)).
Qed.

(** X21. A query with [update] off reads the index as it stands: it does
    not ask the store for changes, so the database, [dbHead], the id
    index and the map function are as before, and of the key index only
    the root may have been loaded. *)
Theorem query_without_update (w : World) (q : Query) :
  database (fst (query w q false)) = database w /\
  dbHead (this (fst (query w q false))) = dbHead (this w) /\
  mapFn (this (fst (query w q false))) = mapFn (this w) /\
  indexById (this (fst (query w q false))) = indexById (this w) /\
  indexByKey (this (fst (query w q false)))
  = loadIndex (indexBlocks (database w)) (indexByKey (this w)) dbIndexOpts /\
  cid (indexByKey (this (fst (query w q false)))) = cid (indexByKey (this w)).
Proof.
  assert (Hindex : fst (doIndexQuery (indexBlocks (database w)) (indexByKey (this w)) q)
                   = loadIndex (indexBlocks (database w)) (indexByKey (this w)) dbIndexOpts).
  { unfold doIndexQuery.
    destruct (root (loadIndex _ _ _)) as [node|]; [|reflexivity].
    destruct (q_range q) as [bounds|].
    - destruct (range node _). reflexivity.
    - destruct (truthy (q_key q)).
      + destruct (get node _). reflexivity.
      + destruct (getAllEntries node). reflexivity. }
  unfold query.
  destruct (doIndexQuery (indexBlocks (database w)) (indexByKey (this w)) q) as [index resp].
  simpl in Hindex. subst index.
  destruct resp as [response|e]; simpl; rewrite loadIndex_cid; repeat split.
Qed.

(** X22. A query with [update] on, of an index that has no tree yet, over
    a store that reports no change: it answers with no row, whatever its
    range, key and limit, records the clock of the store as [dbHead], and
    leaves the database as it was, nothing written and nothing
    announced. *)
Theorem query_nothing_indexed (w : World) (q : Query) :
  indexByKey (this w) = mkIndexRoot None None ->
  rows (changesSince (store (database w)) (dbHead (this w))) = [] ->
  snd (query w q true) = Ok (mkQueryResult (cidsToProof None) []) /\
  dbHead (this (fst (query w q true))) = Some (clock (store (database w))) /\
  database (fst (query w q true)) = database w.
Proof.
  intros Hkey Hrows. unfold query, await_updateIndex.
  rewrite (innerUpdateIndex_no_changes w Hrows). simpl. rewrite Hkey. simpl.
  repeat split.
Qed.

(** X23. The key of a query is tested for truth, not for presence: with
    no range, a query for a key that is falsy, such as 0, the empty
    string, [null] or [false], is answered as the scan of the whole
    index. *)
Theorem doIndexQuery_falsy_key (blocks : IndexBlocks) (index : IndexRoot) (q : Query) :
  q_range q = None -> truthy (q_key q) = false ->
  doIndexQuery blocks index q
  = doIndexQuery blocks index (mkQuery None VUndefined (q_limit q)).
Proof.
  intros Hrange Hkey. unfold doIndexQuery. simpl. rewrite Hrange, Hkey. reflexivity.
Qed.

End MoreQueryFacts.

(** ** The guard of the update *)

Section MoreLoopFacts.

Import Prolly Compare Fireproof DbIndex Conditions.

Context `{!ProllyUtils} `{!Charwise} `{!TreeLib} `{!ProofLib} `{!NameRegex} `{!Engine}.

(** The loop at rest, with no promise handed out yet, and every loop
    [updateIndex] makes of a loop whose promises were handed out. *)
Lemma promises_handed_out_kept (l : Loop) :
  promises_handed_out l -> promises_handed_out (snd (updateIndex l)).
Proof.
  intros [Hflight Hsettled]. unfold updateIndex.
  destruct (updateIndexPromise (this (world l))) as [p|] eqn:Hp; simpl.
  - split; [intros q Hq; apply Hflight; congruence | exact Hsettled].
  - split; simpl.
    + intros q Hq. injection Hq as <-. lia.
    + intros q Hq. specialize (Hsettled q Hq). lia.
Qed.

(** X24. When the pass in flight settles, whether it completed or threw,
    the guard is released and the promise holds the outcome of the pass.
    The next caller starts a new pass under a new promise: it is not the
    promise that settled nor any other settled one, it has no outcome yet,
    and the settled promise keeps its outcome. *)
Theorem updateIndex_after_settle (l : Loop) (p : PromiseId) :
  promises_handed_out l ->
  updateIndexPromise (this (world l)) = Some p ->
  let p' := fst (updateIndex (settle l)) in
  let l' := snd (updateIndex (settle l)) in
  updateIndexPromise (this (world (settle l))) = None /\
  (exists head, awaited (settle l) p = Some (snd (innerUpdateIndex (world l)), head)) /\
  p' <> p /\
  (forall q, is_Some (awaited (settle l) q) -> q <> p') /\
  awaited l' p' = None /\
  awaited l' p = awaited (settle l) p /\
  passes l' = S (passes l) /\
  updateIndexPromise (this (world l')) = Some p' /\
  promises_handed_out l'.
Proof.
  intros [Hflight Hsettled] Hp p' l'. subst p' l'.
  pose proof (Hflight p Hp) as Hold.
  assert (Hnext : settled l !! next_promise l = None).
  { destruct (settled l !! next_promise l) as [o|] eqn:Hs; [|reflexivity].
    assert (Hlt : (next_promise l < next_promise l)%nat) by (apply Hsettled; exists o; exact Hs).
    lia. }
  unfold settle, awaited. rewrite Hp.
  destruct (innerUpdateIndex (world l)) as [w1 r]. simpl.
  split; [reflexivity|]. split; [eexists; apply lookup_insert_eq|].
  unfold updateIndex. simpl.
  split; [lia|]. split; [|split; [|split; [reflexivity|split; [reflexivity|split; [reflexivity|]]]]].
  - intros q Hq ->. destruct (decide (p = next_promise l)) as [Heq|Hne]; [lia|].
    rewrite lookup_insert_ne in Hq by exact Hne. rewrite Hnext in Hq.
    destruct Hq as [o Ho]. discriminate.
  - rewrite lookup_insert_ne by lia. exact Hnext.
  - split; simpl.
    + intros q Hq. injection Hq as <-. lia.
    + intros q Hq. destruct (decide (p = q)) as [<-|Hne]; [lia|].
      rewrite lookup_insert_ne in Hq by exact Hne. specialize (Hsettled q Hq). lia.
Qed.

End MoreLoopFacts.

(** ** The entries of an update *)

Section MoreEntryFacts.

Import Prolly Compare Fireproof DbIndex Conditions Notions.

Context `{!ProllyUtils} `{!Charwise} `{!TreeLib} `{!ProofLib} `{!NameRegex} `{!Engine}.

Lemma indexEntriesForChanges_flat (changes : list Row) (mapFn : MapFn) :
  indexEntriesForChanges changes mapFn
  = flat_map (fun change =>
      flat_map (entry_of (row_key change))
        (mapFn (makeDoc (row_key change) (row_value change))))
      (kept changes).
Proof.
  unfold indexEntriesForChanges, run_indexEntriesForChanges.
  rewrite fold_forEach_change. reflexivity.
Qed.

(** X25. Every entry [indexEntriesForChanges] returns comes from an
    emission [(k, v)] the map function made on the document of a change
    that is not passed over: its key is the pair of the encoded [k] and
    the id of that change, its value is [v], it is not a removal, and
    neither [k] nor [v] is [undefined]. *)
Theorem indexEntries_shape (changes : list Row) (mapFn : MapFn) (e : IndexEntry) :
  In e (indexEntriesForChanges changes mapFn) ->
  exists change k,
    In change changes /\ skips change = false /\
    In (k, ie_value e) (mapFn (makeDoc (row_key change) (row_value change))) /\
    ie_key e = VArr [VStr (encode k); VStr (row_key change)] /\
    ie_del e = false /\
    typeof_undefined k = false /\ typeof_undefined (ie_value e) = false.
Proof.
  rewrite indexEntriesForChanges_flat. intros Hin.
  apply in_flat_map in Hin as [change [Hkept Hin]].
  apply in_flat_map in Hin as [[k v] [Hemit Hin]].
  apply filter_In in Hkept as [Hchange Hskip].
  unfold entry_of in Hin. simpl in Hin.
  destruct (typeof_undefined v) eqn:Hv; [destruct Hin|].
  destruct (typeof_undefined k) eqn:Hk; [destruct Hin|].
  destruct Hin as [<-|[]]. exists change, k. simpl.
  repeat split; try assumption.
  destruct (skips change); [discriminate | reflexivity].
Qed.

(** X26. The entries of the id index can always be made from those of
    [indexEntriesForChanges]: reading [key[1]] never throws, and there is
    one entry for each, whose key is the id of the document, whose value
    is the composite key, and which is not a removal. *)
Theorem byId_entries_built (changes : list Row) (mapFn : MapFn) :
  exists byIdIndexEntries,
    mapM (fun e => bind (js_index (ie_key e) 1)
                     (fun k1 => Ok (mkIndexEntry k1 (ie_key e) false)))
      (indexEntriesForChanges changes mapFn) = Ok byIdIndexEntries /\
    Forall2 (fun e b => ie_value b = ie_key e /\ ie_del b = false /\
                        exists k id, ie_key e = VArr [k; VStr id] /\ ie_key b = VStr id)
      (indexEntriesForChanges changes mapFn) byIdIndexEntries.
Proof.
  assert (Hshape : Forall (fun e => exists k id, ie_key e = VArr [k; VStr id])
                     (indexEntriesForChanges changes mapFn)).
  { apply Forall_forall. intros e He. apply list_elem_of_In in He.
    destruct (indexEntries_shape changes mapFn e He) as (change & k & _ & _ & _ & Hkey & _).
    eauto. }
  induction Hshape as [|e entries [k [id Hkey]] _ [byId [Hmap Hall]]].
  - exists []. split; [reflexivity | constructor].
  - exists (mkIndexEntry (VStr id) (ie_key e) false :: byId). split.
    + simpl. rewrite Hkey. simpl. rewrite Hmap. reflexivity.
    + constructor; [|exact Hall]. simpl. repeat split. eauto.
Qed.

End MoreEntryFacts.

(** ** The further properties on the stores and indexes above *)

Section FurtherWitnesses.

Import Prolly Compare Fireproof DbIndex Standin LogEngine Callbacks Scenario Conditions Notions Cases.

Lemma registry_stays_consistent_witness : registry_ok (snd rehydrated_heap).
Proof.
  assert (Hempty : registry_ok (mkHeap ∅ (database indexed_ab))).
  { intros src r Hsrc. discriminate Hsrc. }
  exact (proj2 (registry_stays_consistent (mkHeap ∅ (database indexed_ab)) Hempty)
           (Source (json_code (toJSON (this indexed_ab))))
           (Some (json_clock (toJSON (this indexed_ab))))
           (mkIndexOpts (json_name (toJSON (this indexed_ab))) false) "qrstu").
Defined.

Lemma fromJSON_toJSON_witness :
  let h := mkHeap ∅ (database indexed_ab) in
  exists obj,
    objects (snd (fromJSON h named_descriptor "qrstu")) !! fst (fromJSON h named_descriptor "qrstu")
    = Some obj /\
    toJSON obj = named_descriptor /\ mapFn obj = None.
Proof.
  cbv zeta.
  destruct (fromJSON_toJSON (mkHeap ∅ (database indexed_ab)) named_descriptor "qrstu" "byX")
    as (obj & Hobj & Hjson & Hfn & _).
  - reflexivity.
  - reflexivity.
  - discriminate.
  - exists obj. split; [exact Hobj|]. split; [exact Hjson | exact Hfn].
Defined.

Lemma bulkIndex_stores_root_witness :
  exists node, root (written (snd first_bulk)) = Some node /\
    cid (written (snd first_bulk)) = Some (fst (block node)) /\
    getBlock (fst first_bulk) (fst (block node)) = Some (snd (block node)).
Proof.
  assert (Hbulk : bulkIndex ∅ (mkIndexRoot None None)
                    (indexEntriesForChanges sample_changes by_x) dbIndexOpts
                  = (fst first_bulk, Ok (written (snd first_bulk)))) by reflexivity.
  apply (bulkIndex_stores_root _ _ _ _ _ _ Hbulk). discriminate.
Defined.

Lemma innerUpdateIndex_without_id_tree_witness :
  is_Some (mapFn (this live_yx)) /\
  snd (innerUpdateIndex live_yx)
  = Throw (TypeError "Cannot read properties of null (reading 'getMany')").
Proof.
  split; [eexists; reflexivity|].
  apply innerUpdateIndex_without_id_tree.
  - discriminate.
  - discriminate.
  - reflexivity.
Defined.

Lemma query_nothing_indexed_witness :
  snd (query empty_world (mkQuery None (VNum (Fin 1)) (Some 1)) true)
  = Ok (mkQueryResult (cidsToProof None) []) /\
  dbHead (this (fst (query empty_world (mkQuery None (VNum (Fin 1)) (Some 1)) true))) = Some [].
Proof.
  destruct (query_nothing_indexed empty_world (mkQuery None (VNum (Fin 1)) (Some 1)))
    as (Hrows & Hhead & _).
  - reflexivity.
  - reflexivity.
  - split; [exact Hrows | exact Hhead].
Defined.

Lemma doIndexQuery_falsy_key_witness :
  doIndexQuery (indexBlocks (database indexed_ab)) (indexByKey (this indexed_ab))
    (mkQuery None (VNum (Fin 0)) (Some 1))
  = doIndexQuery (indexBlocks (database indexed_ab)) (indexByKey (this indexed_ab))
      (mkQuery None VUndefined (Some 1)).
Proof.
  apply (doIndexQuery_falsy_key _ _ (mkQuery None (VNum (Fin 0)) (Some 1))); reflexivity.
Defined.

Lemma updateIndex_after_settle_witness :
  updateIndexPromise (this (world (settle busy_loop))) = None /\
  fst (updateIndex (settle busy_loop)) = 1%nat /\
  awaited (snd (updateIndex (settle busy_loop))) 1%nat = None /\
  awaited (snd (updateIndex (settle busy_loop))) 0%nat = awaited (settle busy_loop) 0%nat /\
  passes (snd (updateIndex (settle busy_loop))) = 2%nat.
Proof.
  assert (Hrest : promises_handed_out idle_loop).
  { split; [intros p Hp; discriminate Hp | intros p [o Ho]; discriminate Ho]. }
  destruct (updateIndex_after_settle busy_loop 0%nat (promises_handed_out_kept idle_loop Hrest))
    as (Hfree & _ & _ & _ & Hnew & Hold & Hpasses & Hguard & _).
  - reflexivity.
  - split; [exact Hfree|]. split; [reflexivity|].
    split; [exact Hnew|]. split; [exact Hold | exact Hpasses].
Defined.

Lemma applyLimit_prefix_witness :
  length (result (applyLimit
            (mkResponse [mkResultRow (VStr "a") (VStr "F1") (VStr "a");
                         mkResultRow (VStr "b") (VStr "F1") (VStr "b");
                         mkResultRow (VStr "c") (VStr "F3") (VStr "c")] None)
            (Some (- Z.of_nat 1)))) = 2%nat.
Proof.
  apply (proj2 (proj2 (proj2 (proj2 (applyLimit_prefix
           (mkResponse [mkResultRow (VStr "a") (VStr "F1") (VStr "a");
                        mkResultRow (VStr "b") (VStr "F1") (VStr "b");
                        mkResultRow (VStr "c") (VStr "F3") (VStr "c")] None)))))).
  lia.
Defined.

Lemma indexEntries_shape_witness :
  exists change k,
    In change sample_changes /\ skips change = false /\
    In (k, VStr "a") (by_x (makeDoc (row_key change) (row_value change))) /\
    VArr [VStr (encode (VNum (Fin 1))); VStr "a"] = VArr [VStr (encode k); VStr (row_key change)].
Proof.
  destruct (indexEntries_shape sample_changes by_x
              (mkIndexEntry (VArr [VStr (encode (VNum (Fin 1))); VStr "a"]) (VStr "a") false))
    as (change & k & Hin & Hskip & Hemit & Hkey & _).
  - left. reflexivity.
  - exists change, k. split; [exact Hin|]. split; [exact Hskip|]. split; [exact Hemit | exact Hkey].
Defined.

End FurtherWitnesses.
